(** * A shallow embedding of [scripts/fetch.py]

    The documentation fetcher of the cc-docs skill: filename derivation,
    markdown validation, the retrying page and changelog fetchers, the
    manifest-driven orchestrator with its cleanup pass, and the
    reconciliation of SKILL.md against the fetched files.

    Python [str] values are modelled as [string] (sequences of 8-bit
    characters, so [len] counts characters); dictionaries keyed by file
    name are [gmap string _]; sets of file names are [gset string]. *)

From Stdlib Require Import ZArith QArith Ascii String.
From stdpp Require Import base option list gmap strings sorting pretty.



(** ** Python string primitives *)

Module PyStr.

(** [s[len(p):]] when [s.startswith(p)], otherwise nothing. *)
Fixpoint strip_prefix (p s : string) : option string :=
  match p with
  | EmptyString => Some s
  | String a p' =>
      match s with
      | EmptyString => None
      | String b s' => if Ascii.eqb a b then strip_prefix p' s' else None
      end
  end.

(** [s.startswith(p)] *)
Definition startswith (p s : string) : bool :=
  match strip_prefix p s with Some _ => true | None => false end.

(** [sub in s] *)
Fixpoint contains (sub s : string) : bool :=
  startswith sub s ||
  match s with
  | EmptyString => false
  | String _ s' => contains sub s'
  end.

(** [s.endswith(suf)] : some suffix of [s] is [suf]. *)
Fixpoint endswith (suf s : string) : bool :=
  String.eqb suf s ||
  match s with
  | EmptyString => false
  | String _ s' => endswith suf s'
  end.

(** [s.partition(sep)], with [None] when [sep] does not occur:
    the text before the first occurrence and the text after it. *)
Fixpoint partition (sep s : string) : option (string * string) :=
  match strip_prefix sep s with
  | Some r => Some (EmptyString, r)
  | None =>
      match s with
      | EmptyString => None
      | String c s' =>
          match partition sep s' with
          | Some (b, a) => Some (String c b, a)
          | None => None
          end
      end
  end.

(** [s.split(sep)] for a non-empty [sep]: occurrences are found left to
    right and do not overlap.  The recursion is on a fuel bounded by the
    length of the text still to be split. *)
Fixpoint split_fuel (n : nat) (sep s : string) : list string :=
  match n with
  | O => [s]
  | S n' =>
      match partition sep s with
      | None => [s]
      | Some (b, a) => b :: split_fuel n' sep a
      end
  end.

Definition split (sep s : string) : list string :=
  split_fuel (String.length s) sep s.

(** [l[-1]] on a list of strings ([split] never returns an empty list). *)
Definition last_item (l : list string) : string := default EmptyString (last l).

(** [s.replace(c, new)] for a one-character [c]. *)
Fixpoint replace_char (c : ascii) (new s : string) : string :=
  match s with
  | EmptyString => EmptyString
  | String b s' =>
      if Ascii.eqb c b then new +:+ replace_char c new s'
      else String b (replace_char c new s')
  end.

(** [s[:n]] *)
Fixpoint slice_to (n : nat) (s : string) : string :=
  match n, s with
  | S n', String c s' => String c (slice_to n' s')
  | _, _ => EmptyString
  end.

(** [c.isspace()] on the characters below 256: tab, line feed, vertical
    tab, form feed, carriage return, the separators 28..31, space, NEL
    (133) and the no-break space (160). *)
Definition isspace (c : ascii) : bool :=
  let n := nat_of_ascii c in
  (((9 <=? n) && (n <=? 13)) || ((28 <=? n) && (n <=? 32))
   || (n =? 133) || (n =? 160))%nat.

Fixpoint lstrip (s : string) : string :=
  match s with
  | EmptyString => EmptyString
  | String c s' => if isspace c then lstrip s' else s
  end.

Fixpoint rstrip (s : string) : string :=
  match s with
  | EmptyString => EmptyString
  | String c s' =>
      match rstrip s' with
      | EmptyString => if isspace c then EmptyString else String c EmptyString
      | r => String c r
      end
  end.

(** [s.strip()] *)
Definition strip (s : string) : string := rstrip (lstrip s).

(** [s[:-n]] *)
Definition drop_end (n : nat) (s : string) : string :=
  slice_to (String.length s - n) s.

(** [bool(s)] *)
Definition truthy (s : string) : bool :=
  match s with EmptyString => false | String _ _ => true end.

Definition is_digit (c : ascii) : bool :=
  let n := nat_of_ascii c in ((48 <=? n) && (n <=? 57))%nat.

Definition digit_value (c : ascii) : Z := Z.of_nat (nat_of_ascii c - 48).

(** The digits of an integer literal: at least one digit, with single
    underscores allowed between digits. *)
Fixpoint parse_digits (acc : Z) (after_digit : bool) (s : string) : option Z :=
  match s with
  | EmptyString => if after_digit then Some acc else None
  | String c r =>
      if is_digit c then parse_digits (10 * acc + digit_value c)%Z true r
      else if Ascii.eqb c "_" && after_digit then parse_digits acc false r
      else None
  end.

(** The white space [int] accepts around a literal: of the characters
    below 256, those of [isspace] without the separators 28 to 31. *)
Definition int_space (c : ascii) : bool :=
  let n := nat_of_ascii c in
  (((9 <=? n) && (n <=? 13)) || (n =? 32) || (n =? 133) || (n =? 160))%nat.

Fixpoint int_lstrip (s : string) : string :=
  match s with
  | EmptyString => EmptyString
  | String c s' => if int_space c then int_lstrip s' else s
  end.

Fixpoint int_rstrip (s : string) : string :=
  match s with
  | EmptyString => EmptyString
  | String c s' =>
      match int_rstrip s' with
      | EmptyString => if int_space c then EmptyString else String c EmptyString
      | r => String c r
      end
  end.

(** [int(s)] on a string: surrounding white space is ignored, a sign may
    come first; [None] stands for the [ValueError] of a bad literal. *)
Definition py_int (s : string) : option Z :=
  match int_rstrip (int_lstrip s) with
  | String "+" r => parse_digits 0 false r
  | String "-" r => Z.opp <$> parse_digits 0 false r
  | t => parse_digits 0 false t
  end.

End PyStr.

Import PyStr.

(** ** Filename derivation *)

Definition doc_prefixes : list string :=
  ["/docs/en/"; "/en/docs/claude-code/"; "/docs/claude-code/"; "/claude-code/"].

(** The [for ... else] of [url_to_safe_filename]: the first prefix of the
    list that occurs in the path decides; without one, a bare
    ["claude-code/"] is tried; otherwise the path is kept. *)
Definition recognized_prefix (url_path : string) : option string :=
  match List.find (fun prefix => contains prefix url_path) doc_prefixes with
  | Some prefix => Some prefix
  | None =>
      if contains "claude-code/" url_path then Some "claude-code/" else None
  end.

Definition trimmed_path (url_path : string) : string :=
  match recognized_prefix url_path with
  | Some prefix => last_item (split prefix url_path)
  | None => url_path
  end.

Definition url_to_safe_filename (url_path : string) : string :=
  let path := trimmed_path url_path in
  if negb (contains "/" path) then
    if negb (endswith ".md" path) then path +:+ ".md" else path
  else
    let safe_name := replace_char "/" "__" path in
    if negb (endswith ".md" safe_name) then safe_name +:+ ".md" else safe_name.

(** ** The reference pattern of SKILL.md

    [re.findall] with the pattern
    [`?references/([^`\s]+\.(?:md|json))`?]: the list of what the group
    captured, match after match, from left to right. *)

(** A character [[^`\s]] accepts. *)
Definition name_char (c : ascii) : bool :=
  negb (isspace c) && negb (Ascii.eqb c "`").

(** The longest run of such characters at the start of [s]. *)
Fixpoint name_run (s : string) : string :=
  match s with
  | EmptyString => EmptyString
  | String c s' => if name_char c then String c (name_run s') else EmptyString
  end.

(** [x] followed by [".md"] or [".json"], with [x] not empty. *)
Definition has_extension (p : string) : bool :=
  (endswith ".md" p && (3 <? String.length p)%nat)
  || (endswith ".json" p && (5 <? String.length p)%nat).

(** The greedy [+] gives back characters until the extension follows:
    of the prefixes of the run that end in an extension, the longest.
    [taken] is the part of the run already passed. *)
Fixpoint longest_name (taken run : string) : option string :=
  match run with
  | EmptyString => None
  | String c run' =>
      let taken' := taken +:+ String c EmptyString in
      match longest_name taken' run' with
      | Some name => Some name
      | None => if has_extension taken' then Some taken' else None
      end
  end.

Definition skip_backtick (s : string) : string :=
  match s with
  | String "`" s' => s'
  | _ => s
  end.

Fixpoint drop_chars (n : nat) (s : string) : string :=
  match n, s with
  | S n', String _ s' => drop_chars n' s'
  | _, _ => s
  end.

(** A match of the pattern at the very start of [s]: the captured name
    and the text after the match. *)
Definition match_reference (s : string) : option (string * string) :=
  match strip_prefix "references/" (skip_backtick s) with
  | Some s' =>
      match longest_name EmptyString (name_run s') with
      | Some name =>
          Some (name, skip_backtick (drop_chars (String.length name) s'))
      | None => None
      end
  | None => None
  end.

(** The scan of [findall]: after a match it goes on behind the match,
    otherwise one character further.  The fuel bounds the positions left. *)
Fixpoint findall_fuel (n : nat) (s : string) : list string :=
  match n with
  | O => []
  | S n' =>
      match match_reference s with
      | Some (name, rest) => name :: findall_fuel n' rest
      | None =>
          match s with
          | EmptyString => []
          | String _ s' => findall_fuel n' s'
          end
      end
  end.

Definition re_findall_references (content : string) : list string :=
  findall_fuel (S (String.length content)) content.

(** ** Errors, the environment and the world *)

(** What [requests] raises as a [RequestException]: a failure of the
    transport itself, or the [HTTPError] of [raise_for_status]. *)
Inductive request_error :=
  | ConnectionError (msg : string)
  | HTTPError (status : Z).

Inductive value_error :=
  | ReceivedHtml                    (* "Received HTML instead of markdown" *)
  | ContentTooShort (len : nat)     (* "Content too short (.. bytes)" *)
  | NotMarkdown (indicators : nat)  (* "... (only .. indicators)" *)
  | ChangelogTooShort (len : nat)   (* "Changelog too short (.. bytes)" *)
  | InvalidLiteral (s : string)     (* int() on a bad literal *)
  | NegativeSleep.                  (* time.sleep() on a negative length *)

Inductive exn :=
  | RequestException (e : request_error)
  | ValueError (e : value_error)
  (* Exception(f"Failed to fetch {filename} after {MAX_RETRIES} attempts: {e}") *)
  | FetchFailed (filename : string) (attempts : nat) (cause : request_error)
  (* Exception(f"Failed to fetch changelog: {e}") *)
  | ChangelogFailed (cause : request_error)
  (* Exception("Could not find a valid sitemap") *)
  | NoValidSitemap
  (* ET.ParseError, and the ValueError of urlparse *)
  | ParseError
  (* TypeError: cannot unpack non-iterable NoneType object *)
  | UnpackNone
  (* sys.exit(code) *)
  | SystemExit (code : Z).

Inductive outcome (A : Type) :=
  | Returns (a : A)
  | Raises (e : exn).
Arguments Returns {A} a.
Arguments Raises {A} e.

Record response := {
  status_code : Z;
  retry_after : option string;  (* headers.get('Retry-After') *)
  body : string                 (* response.text / response.content *)
}.

(** [session.get] either raises a [RequestException] or returns. *)
Inductive http_result :=
  | GetRaises (msg : string)
  | GetReturns (r : response).

(** What the two searches of a parsed sitemap see: for each [ns:url]
    element the text of its [ns:loc] child, and for each bare [loc]
    element its text ([None]: no such child, or no text). *)
Record sitemap := {
  ns_locs : list (option string);
  plain_locs : list (option string)
}.

Record parsed_url := { scheme : string; netloc : string; url_path : string }.

Record entry := {
  original_url : option string;
  hash : option string;
  last_updated : option string;
  source : option string
}.

Record fetch_metadata := {
  last_fetch : string;
  duration_seconds : Q;
  meta_successful : nat;
  meta_failed : nat;
  meta_failed_pages : list string;
  meta_sitemap_url : option string;
  meta_base_url : string
}.

Record manifest := {
  files : gmap string entry;
  manifest_last_updated : option string;
  description : option string;
  metadata : option fetch_metadata
}.

(** What [json.loads] finds in a manifest file: the "files" key may be
    missing. *)
Record raw_manifest := {
  raw_files : option (gmap string entry);
  raw_last_updated : option string;
  raw_description : option string;
  raw_metadata : option fetch_metadata
}.

(** Library functions and the outside world.  The [n]-th request of a
    run, the [n]-th random draw and the [n]-th reading of the clock are
    functions of [n]. *)
Record Env := {
  http_get : nat -> string -> http_result;
  random_bits : nat -> N;                   (* the 53 bits behind random() *)
  clock : nat -> Z;                         (* datetime.now(), microseconds *)
  isoformat : Z -> string;
  sha256_hexdigest : string -> string;
  json_loads : string -> option raw_manifest; (* [None]: it raises *)
  json_dumps : manifest -> string;
  et_fromstring : string -> option sitemap; (* [None]: ParseError *)
  urlparse : string -> option parsed_url    (* [None]: ValueError *)
}.

Inductive event :=
  | EvGet (url : string)
  | EvSleep (secs : Q)
  | EvWrite (name : string)
  | EvUnlink (name : string).

(** The references directory as a flat mapping from file name to content,
    SKILL.md beside it, the effects performed so far (oldest first) and
    how many requests, random draws and clock readings were made. *)
Record World := {
  disk : gmap string string;
  skill_md : option string;
  events : list event;
  reqs : nat;
  draws : nat;
  ticks : nat
}.

(** A computation changes the world and returns or raises. *)
Definition M (A : Type) : Type := World -> outcome A * World.

Definition ret {A} (a : A) : M A := fun w => (Returns a, w).
Definition raise {A} (e : exn) : M A := fun w => (Raises e, w).
Definition bind {A B} (m : M A) (k : A -> M B) : M B :=
  fun w => match m w with
           | (Returns a, w') => k a w'
           | (Raises e, w') => (Raises e, w')
           end.

(** [try: m  except <handled>: h] *)
Definition try_except {A} (m : M A) (h : exn -> option (M A)) : M A :=
  fun w => match m w with
           | (Returns a, w') => (Returns a, w')
           | (Raises e, w') =>
               match h e with
               | Some k => k w'
               | None => (Raises e, w')
               end
           end.

Declare Scope io_scope.
Delimit Scope io_scope with io.
Notation "x <- m ;; k" := (bind m (fun x => k))
  (at level 100, m at next level, right associativity) : io_scope.
Notation "m ;;; k" := (bind m (fun _ => k))
  (at level 100, right associativity) : io_scope.

(** The ways a computation changes the world. *)
Definition record_event (e : event) (w : World) : World :=
  {| disk := disk w; skill_md := skill_md w; events := events w ++ [e];
     reqs := reqs w; draws := draws w; ticks := ticks w |}.

Definition count_request (w : World) : World :=
  {| disk := disk w; skill_md := skill_md w; events := events w;
     reqs := S (reqs w); draws := draws w; ticks := ticks w |}.

Definition count_draw (w : World) : World :=
  {| disk := disk w; skill_md := skill_md w; events := events w;
     reqs := reqs w; draws := S (draws w); ticks := ticks w |}.

Definition count_tick (w : World) : World :=
  {| disk := disk w; skill_md := skill_md w; events := events w;
     reqs := reqs w; draws := draws w; ticks := S (ticks w) |}.

Definition set_disk (d : gmap string string) (w : World) : World :=
  {| disk := d; skill_md := skill_md w; events := events w;
     reqs := reqs w; draws := draws w; ticks := ticks w |}.

Definition log (e : event) : M unit :=
  fun w => (Returns tt, record_event e w).

(** [time.sleep(secs)]: a negative length is a [ValueError].  Lengths
    too large for the platform's clock are not considered. *)
Definition sleep (secs : Q) : M unit :=
  if Qle_bool 0 secs then log (EvSleep secs)
  else raise (ValueError NegativeSleep).

Definition lift {A} (o : outcome A) : M A := fun w => (o, w).

(** Requests and sleeps leave the files alone. *)
Definition is_network_event (e : event) : Prop :=
  match e with
  | EvGet _ | EvSleep _ => True
  | EvWrite _ | EvUnlink _ => False
  end.

(** A computation that touches no file: the references directory and
    SKILL.md stay as they are, and what it adds to the record of effects
    are requests and sleeps only. *)
Definition quiet {A} (m : M A) : Prop :=
  forall w,
    disk (snd (m w)) = disk w /\
    skill_md (snd (m w)) = skill_md w /\
    exists es, events (snd (m w)) = events w ++ es /\
               Forall is_network_event es.

Local Open Scope io_scope.

(** ** Markdown validation *)

Definition newline : string := String "010"%char EmptyString.

Definition markdown_indicators : list string :=
  ["# "; "## "; "### "; "```"; "- "; "* "; "1. "; "["; "**"; "_"; "> "].

(** The inner [for indicator in markdown_indicators] with its [break]. *)
Definition line_has_indicator (line : string) : bool :=
  existsb (fun indicator =>
             startswith indicator (strip line) || contains indicator line)
          markdown_indicators.

(** The outer [for line in lines[:50]], counting. *)
Definition count_indicators (lines : list string) : nat :=
  fold_left (fun indicator_count line =>
               if line_has_indicator line then S indicator_count
               else indicator_count)
            lines 0%nat.

Definition validate_markdown_content (content filename : string) : outcome unit :=
  if negb (truthy content) || startswith "<!DOCTYPE" content
     || contains "<html" (slice_to 100 content)
  then Raises (ValueError ReceivedHtml)
  else if (String.length (strip content) <? 50)%nat
  then Raises (ValueError (ContentTooShort (String.length content)))
  else
    let lines := split newline content in
    let indicator_count := count_indicators (take 50 lines) in
    if (indicator_count <? 3)%nat
    then Raises (ValueError (NotMarkdown indicator_count))
    else Returns tt.

(** A line mentions an indicator when one occurs anywhere in it. *)
Definition mentions_indicator (line : string) : bool :=
  existsb (fun indicator => contains indicator line) markdown_indicators.

(** The conditions of rejection as the specification words them. *)
Definition looks_like_html (content : string) : Prop :=
  content = "" \/ startswith "<!DOCTYPE" content = true
  \/ contains "<html" (slice_to 100 content) = true.

Definition too_short (content : string) : Prop :=
  (String.length (strip content) < 50)%nat.

Definition too_few_indicators (content : string) : Prop :=
  (length (List.filter mentions_indicator (take 50 (split newline content))) < 3)%nat.

Definition rejected (content : string) : Prop :=
  looks_like_html content \/ too_short content \/ too_few_indicators content.

(** ** Retry configuration *)

Definition MAX_RETRIES : nat := 3.
Definition RETRY_DELAY : Z := 2.
Definition MAX_RETRY_DELAY : Z := 30.
Definition RATE_LIMIT_DELAY : Q := 1 # 2.

(** [min(RETRY_DELAY * (2 ** attempt), MAX_RETRY_DELAY)] *)
Definition backoff_delay (attempt : nat) : Z :=
  Z.min (RETRY_DELAY * 2 ^ Z.of_nat attempt) MAX_RETRY_DELAY.

(** [random.random()]: 53 random bits scaled into [0, 1). *)
Definition random_unit (bits : N) : Q :=
  Z.of_N (bits mod 2 ^ 53) # (2 ^ 53).

(** A step of a [for] loop body: go on with the next iteration
    ([continue], or the end of the body), or [return]. *)
Inductive loop_step (A : Type) :=
  | Next
  | Done (a : A).
Arguments Next {A}.
Arguments Done {A} a.

(** [for x in xs: body], with [Some a] when the body returned [a] and
    [None] when the loop ran out (a function whose last statement is the
    loop then returns Python's [None]). *)
Fixpoint for_loop {X A} (body : X -> M (loop_step A)) (xs : list X)
  : M (option A) :=
  match xs with
  | [] => ret None
  | x :: rest =>
      r <- body x ;;
      match r with
      | Next => for_loop body rest
      | Done a => ret (Some a)
      end
  end.

(** [except Exception as e: k e]: everything but [SystemExit] is caught. *)
Definition except_Exception {A} (k : exn -> M A) (e : exn) : option (M A) :=
  match e with
  | SystemExit _ => None
  | _ => Some (k e)
  end.

Section Fetcher.

Context (env : Env).

Definition session_get (url : string) : M response :=
  fun w =>
    let w' := count_request (record_event (EvGet url) w) in
    match http_get env (reqs w) url with
    | GetRaises msg => (Raises (RequestException (ConnectionError msg)), w')
    | GetReturns r => (Returns r, w')
    end.

Definition raise_for_status (r : response) : M unit :=
  if ((400 <=? status_code r) && (status_code r <? 600))%Z
  then raise (RequestException (HTTPError (status_code r)))
  else ret tt.

(** [random.uniform(a, b)] is [a + (b - a) * random()]. *)
Definition random_uniform (a b : Q) : M Q :=
  fun w =>
    (Returns (a + (b - a) * random_unit (random_bits env (draws w)))%Q,
     count_draw w).

(** [datetime.now()] *)
Definition now : M Z :=
  fun w =>
    (Returns (clock env (ticks w)), count_tick w).

(** [int(response.headers.get('Retry-After', 60))] *)
Definition retry_after_seconds (r : response) : outcome Z :=
  match retry_after r with
  | None => Returns 60%Z
  | Some s =>
      match py_int s with
      | Some n => Returns n
      | None => Raises (ValueError (InvalidLiteral s))
      end
  end.

(** The branch both fetchers take on a 429: wait as long as the server
    says, then [continue]. *)
Definition wait_rate_limit {A} (response : response) : M (loop_step A) :=
  wait_time <- lift (retry_after_seconds response) ;;
  sleep (inject_Z wait_time) ;;;
  ret Next.

(** The handler both fetchers have for a [RequestException]: back off
    and go round again, or give up on the last attempt with [failure]. *)
Definition backoff_or_give_up {A} (attempt : nat) (failure : exn)
  : M (loop_step A) :=
  if (attempt <? MAX_RETRIES - 1)%nat then
    let delay := backoff_delay attempt in
    j <- random_uniform (1 # 2) 1 ;;
    let jittered_delay := (inject_Z delay * j)%Q in
    sleep jittered_delay ;;;
    ret Next
  else raise failure.

(** The body of the retry loop of [fetch_markdown_content]. *)
Definition attempt_page (markdown_url filename : string) (attempt : nat)
  : M (loop_step (string * string)) :=
  try_except
    (response <- session_get markdown_url ;;
     if (status_code response =? 429)%Z then wait_rate_limit response
     else
       raise_for_status response ;;;
       let content := body response in
       lift (validate_markdown_content content filename) ;;;
       ret (Done (filename, content)))
    (fun e =>
       match e with
       | RequestException e' =>
           Some (backoff_or_give_up attempt
                   (FetchFailed filename MAX_RETRIES e'))
       | ValueError _ => Some (raise e)
       | _ => None
       end).

Definition fetch_markdown_content (path base_url : string)
  : M (option (string * string)) :=
  let markdown_url := base_url +:+ path +:+ ".md" in
  let filename := url_to_safe_filename path in
  for_loop (attempt_page markdown_url filename) (seq 0 MAX_RETRIES).

(** ** The changelog *)

Definition changelog_url : string :=
  "https://raw.githubusercontent.com/anthropics/claude-code/main/CHANGELOG.md".

Definition changelog_header : string :=
  "# Claude Code Changelog" +:+ newline +:+ newline +:+
  "> **Source**: https://github.com/anthropics/claude-code/blob/main/CHANGELOG.md"
  +:+ newline +:+ newline +:+ "---" +:+ newline +:+ newline.

(** What follows a good response in [fetch_changelog]. *)
Definition accept_changelog (text : string) : outcome (string * string) :=
  let filename := "changelog.md" in
  let content := changelog_header +:+ text in
  if (String.length (strip content) <? 100)%nat
  then Raises (ValueError (ChangelogTooShort (String.length content)))
  else Returns (filename, content).

Definition attempt_changelog (attempt : nat) : M (loop_step (string * string)) :=
  try_except
    (response <- session_get changelog_url ;;
     if (status_code response =? 429)%Z then wait_rate_limit response
     else
       raise_for_status response ;;;
       r <- lift (accept_changelog (body response)) ;;
       ret (Done r))
    (fun e =>
       match e with
       | RequestException e' =>
           Some (backoff_or_give_up attempt (ChangelogFailed e'))
       | _ => None
       end).

Definition fetch_changelog : M (option (string * string)) :=
  for_loop attempt_changelog (seq 0 MAX_RETRIES).

(** *** Vocabulary for the retry loop

    What a request amounts to for the loop, and the world after the
    request and the sleep that follows it. *)

Definition is_error_status (status : Z) : bool :=
  ((400 <=? status) && (status <? 600))%Z.

(** The [RequestException] a request ends in: raised by [session.get], or
    by [raise_for_status] on a status other than 429. *)
Definition transport_error (res : http_result) : option request_error :=
  match res with
  | GetRaises msg => Some (ConnectionError msg)
  | GetReturns r =>
      if (status_code r =? 429)%Z then None
      else if is_error_status (status_code r)
           then Some (HTTPError (status_code r))
           else None
  end.

(** A 429 whose Retry-After (60 when absent) reads as [n] seconds. *)
Definition rate_limited (res : http_result) (n : Z) : Prop :=
  exists r, res = GetReturns r /\ status_code r = 429%Z /\
            retry_after_seconds r = Returns n /\ (0 <= n)%Z.

(** What the request made in world [w] brings back. *)
Definition answer (url : string) (w : World) : http_result :=
  http_get env (reqs w) url.

(** The sitemap a request brings back, when the request succeeds, the
    status is no error and the body parses. *)
Definition sitemap_of (res : http_result) : option sitemap :=
  match res with
  | GetRaises _ => None
  | GetReturns r =>
      if is_error_status (status_code r) then None
      else et_fromstring env (body r)
  end.

Definition after_request (url : string) (w : World) : World :=
  count_request (record_event (EvGet url) w).

(** The factor [random.uniform(0.5, 1.0)] draws in world [w]. *)
Definition jitter (w : World) : Q :=
  ((1 # 2) + (1 - (1 # 2)) * random_unit (random_bits env (draws w)))%Q.

Definition after_rate_limit (url : string) (n : Z) (w : World) : World :=
  record_event (EvSleep (inject_Z n)) (after_request url w).

Definition after_backoff (url : string) (attempt : nat) (w : World) : World :=
  let w1 := after_request url w in
  record_event (EvSleep (inject_Z (backoff_delay attempt) * jitter w1)%Q)
               (count_draw w1).

(** ** Sitemap discovery *)

Definition SITEMAP_URLS : list string :=
  ["https://code.claude.com/docs/sitemap.xml";
   "https://docs.anthropic.com/sitemap.xml"].

(** The texts that pass [if loc_elem is not None and loc_elem.text]. *)
Definition truthy_texts (locs : list (option string)) : list string :=
  omap (fun t => match t with
                 | Some u => if truthy u then Some u else None
                 | None => None
                 end) locs.

Definition first_url (root : sitemap) : option string :=
  match head (truthy_texts (ns_locs root)) with
  | Some u => Some u
  | None => head (truthy_texts (plain_locs root))
  end.

Definition parse_xml (content : string) : M sitemap :=
  match et_fromstring env content with
  | Some root => ret root
  | None => raise ParseError
  end.

Definition parse_url (url : string) : M parsed_url :=
  match urlparse env url with
  | Some parsed => ret parsed
  | None => raise ParseError
  end.

Definition try_sitemap (sitemap_url : string) : M (loop_step (string * string)) :=
  try_except
    (response <- session_get sitemap_url ;;
     if (status_code response =? 200)%Z then
       root <- parse_xml (body response) ;;
       match first_url root with
       | Some first =>
           parsed <- parse_url first ;;
           let base_url := scheme parsed +:+ "://" +:+ netloc parsed in
           ret (Done (sitemap_url, base_url))
       | None => ret Next
       end
     else ret Next)
    (except_Exception (fun _ => ret Next)).

Definition discover_sitemap_and_base_url : M (string * string) :=
  r <- for_loop try_sitemap SITEMAP_URLS ;;
  match r with
  | Some found => ret found
  | None => raise NoValidSitemap
  end.

Definition get_fallback_pages : list string :=
  ["/docs/en/overview"; "/docs/en/setup"; "/docs/en/quickstart";
   "/docs/en/memory"; "/docs/en/common-workflows"; "/docs/en/mcp";
   "/docs/en/github-actions"; "/docs/en/troubleshooting";
   "/docs/en/security"; "/docs/en/settings"; "/docs/en/hooks";
   "/docs/en/costs"; "/docs/en/monitoring-usage"].

Definition english_patterns : list string :=
  ["/docs/en/"; "/en/docs/claude-code/"].

Definition skip_patterns : list string :=
  ["/tool-use/"; "/examples/"; "/legacy/"; "/api/"; "/reference/"].

(** The page a sitemap path stands for: without [.html], or else
    without a trailing slash. *)
Definition page_path (path : string) : string :=
  if endswith ".html" path then drop_end 5 path
  else if endswith "/" path then drop_end 1 path
  else path.

(** The [for url in urls] loop that fills [claude_code_pages]. *)
Fixpoint collect_pages (urls : list string) (claude_code_pages : list string)
  : M (list string) :=
  match urls with
  | [] => ret claude_code_pages
  | url :: rest =>
      if existsb (fun pattern => contains pattern url) english_patterns then
        parsed <- parse_url url ;;
        let path := page_path (url_path parsed) in
        if negb (existsb (fun skip => contains skip path) skip_patterns)
        then collect_pages rest (claude_code_pages ++ [path])
        else collect_pages rest claude_code_pages
      else collect_pages rest claude_code_pages
  end.

(** [sorted(list(s))] on a set of strings: characters compare by code,
    strings lexicographically. *)
Definition sorted_list (s : gset string) : list string :=
  merge_sort String.le (elements s).

(** The [urls] of [discover_claude_code_pages]: the namespaced search,
    and the bare one when that found nothing. *)
Definition sitemap_urls (root : sitemap) : list string :=
  match truthy_texts (ns_locs root) with
  | [] => truthy_texts (plain_locs root)
  | urls => urls
  end.

Definition discover_claude_code_pages (sitemap_url : string) : M (list string) :=
  try_except
    (response <- session_get sitemap_url ;;
     raise_for_status response ;;;
     root <- parse_xml (body response) ;;
     let urls := sitemap_urls root in
     claude_code_pages <- collect_pages urls [] ;;
     ret (sorted_list (list_to_set claude_code_pages)))
    (except_Exception (fun _ => ret get_fallback_pages)).

(** ** The manifest store *)

Definition MANIFEST_FILE : string := "docs_manifest.json".

Definition empty_manifest : manifest :=
  {| files := ∅; manifest_last_updated := None;
     description := None; metadata := None |}.

(** What [load_manifest] makes of the references directory. *)
Definition manifest_on (d : gmap string string) : manifest :=
  match d !! MANIFEST_FILE with
  | Some text =>
      match json_loads env text with
      | Some raw =>
          {| files := default ∅ (raw_files raw);
             manifest_last_updated := raw_last_updated raw;
             description := raw_description raw;
             metadata := raw_metadata raw |}
      | None => empty_manifest
      end
  | None => empty_manifest
  end.

Definition load_manifest : M manifest :=
  fun w => (Returns (manifest_on (disk w)), w).

(** [path.write_text(content)] in the references directory; the write
    is taken to succeed. *)
Definition write_text (name content : string) : M unit :=
  fun w =>
    (Returns tt,
     set_disk (<[name := content]> (disk w)) (record_event (EvWrite name) w)).

(** [if path.exists(): path.unlink()] *)
Definition unlink_if_exists (name : string) : M unit :=
  fun w =>
    match disk w !! name with
    | Some _ =>
        (Returns tt,
         set_disk (delete name (disk w)) (record_event (EvUnlink name) w))
    | None => (Returns tt, w)
    end.

Definition save_manifest (m : manifest) : M unit :=
  t <- now ;;
  let m := {| files := files m;
              manifest_last_updated := Some (isoformat env t);
              description :=
                Some "Claude Code documentation manifest for cc-docs skill.";
              metadata := metadata m |} in
  write_text MANIFEST_FILE (json_dumps env m).

Definition content_has_changed (content old_hash : string) : bool :=
  negb (String.eqb (sha256_hexdigest env content) old_hash).

Definition save_markdown_file (filename content : string) : M string :=
  write_text filename content ;;;
  ret (sha256_hexdigest env content).

Definition protected_files : gset string := {[ MANIFEST_FILE; "README.md" ]}.

(** The files are visited in the order [elements] lists the set; Python
    fixes no order either. *)
Fixpoint remove_files (names : list string) : M unit :=
  match names with
  | [] => ret tt
  | filename :: rest =>
      (if bool_decide (filename ∈ protected_files) then ret tt
       else unlink_if_exists filename) ;;;
      remove_files rest
  end.

Definition cleanup_old_files (current_files : gset string) (m : manifest) : M unit :=
  let previous_files := dom (files m) in
  let files_to_remove := previous_files ∖ current_files in
  remove_files (elements files_to_remove).

(** ** The orchestrator *)

(** The counters and collections [fetch_docs] builds up. *)
Record run := {
  successful : nat;
  failed : nat;
  failed_pages : list string;
  fetched_files : gset string;
  new_files : gmap string entry  (* new_manifest["files"] *)
}.

Definition run_start : run :=
  {| successful := 0; failed := 0; failed_pages := [];
     fetched_files := ∅; new_files := ∅ |}.

(** The change detection both the pages and the changelog go through:
    the hash and the timestamp of the new entry.  The default of
    [old_entry.get("last_updated", ...)] is evaluated before the lookup,
    so the clock is read on both branches. *)
Definition detect_change (old : manifest) (filename content : string)
  : M (string * string) :=
  let old_entry := files old !! filename in
  let old_hash := default "" (old_entry ≫= hash) in
  if content_has_changed content old_hash then
    content_hash <- save_markdown_file filename content ;;
    t <- now ;;
    ret (content_hash, isoformat env t)
  else
    t <- now ;;
    ret (old_hash, default (isoformat env t) (old_entry ≫= last_updated)).

Definition record_success (st : run) (filename : string) (e : entry) : run :=
  {| successful := S (successful st); failed := failed st;
     failed_pages := failed_pages st;
     fetched_files := {[ filename ]} ∪ fetched_files st;
     new_files := <[filename := e]> (new_files st) |}.

(** [failed += 1; failed_pages.append(page_path)] *)
Definition record_failed_page (st : run) (page_path : string) : run :=
  {| successful := successful st; failed := S (failed st);
     failed_pages := failed_pages st ++ [page_path];
     fetched_files := fetched_files st;
     new_files := new_files st |}.

(** [failed += 1] *)
Definition record_failed_changelog (st : run) : run :=
  {| successful := successful st; failed := S (failed st);
     failed_pages := failed_pages st;
     fetched_files := fetched_files st;
     new_files := new_files st |}.

(** One iteration of [for i, page_path in enumerate(pages, 1)].  Nothing
    after the fetch itself can raise, so the counters are returned rather
    than threaded through the handler. *)
Definition process_page (old : manifest) (base_url : string) (n_pages : nat)
    (st : run) (i : nat) (page_path : string) : M run :=
  try_except
    (r <- fetch_markdown_content page_path base_url ;;
     match r with
     | None => raise UnpackNone
     | Some (filename, content) =>
         hu <- detect_change old filename content ;;
         let e := {| original_url := Some (base_url +:+ page_path);
                     hash := Some (fst hu);
                     last_updated := Some (snd hu);
                     source := None |} in
         (if (i <? n_pages)%nat then sleep RATE_LIMIT_DELAY else ret tt) ;;;
         ret (record_success st filename e)
     end)
    (except_Exception (fun _ => ret (record_failed_page st page_path))).

Fixpoint process_pages (old : manifest) (base_url : string) (n_pages : nat)
    (st : run) (i : nat) (pages : list string) : M run :=
  match pages with
  | [] => ret st
  | page_path :: rest =>
      st' <- process_page old base_url n_pages st i page_path ;;
      process_pages old base_url n_pages st' (S i) rest
  end.

Definition process_changelog (old : manifest) (st : run) : M run :=
  try_except
    (r <- fetch_changelog ;;
     match r with
     | None => raise UnpackNone
     | Some (filename, content) =>
         hu <- detect_change old filename content ;;
         let e := {| original_url :=
                       Some "https://github.com/anthropics/claude-code/blob/main/CHANGELOG.md";
                     hash := Some (fst hu);
                     last_updated := Some (snd hu);
                     source := Some "github" |} in
         ret (record_success st filename e)
     end)
    (except_Exception (fun _ => ret (record_failed_changelog st))).

(** [fetch_docs] up to and including the cleanup: the loaded manifest,
    where the pages came from, and the state of the run. *)
Definition fetch_and_cleanup : M (manifest * (option string * string) * run) :=
  old <- load_manifest ;;
  found <- try_except
             (r <- discover_sitemap_and_base_url ;;
              ret (Some (fst r), snd r))
             (except_Exception (fun _ => ret (None, "https://code.claude.com"))) ;;
  documentation_pages <-
    match fst found with
    | Some sitemap_url => discover_claude_code_pages sitemap_url
    | None => ret get_fallback_pages
    end ;;
  match documentation_pages with
  | [] => raise (SystemExit 1)
  | _ =>
      st <- process_pages old (snd found) (length documentation_pages)
              run_start 1 documentation_pages ;;
      st <- process_changelog old st ;;
      cleanup_old_files (fetched_files st) old ;;;
      ret (old, found, st)
  end.

(** The manifest [fetch_docs] hands to [save_manifest]. *)
Definition new_manifest (st : run) (found : option string * string)
    (start_time last_fetch end_time : Z) : manifest :=
  {| files := new_files st;
     manifest_last_updated := None;
     description := None;
     metadata :=
       Some {| last_fetch := isoformat env last_fetch;
               duration_seconds := (end_time - start_time) # 1000000;
               meta_successful := successful st;
               meta_failed := failed st;
               meta_failed_pages := failed_pages st;
               meta_sitemap_url := fst found;
               meta_base_url := snd found |} |}.

Definition fetch_docs : M (nat * nat * gset string) :=
  start_time <- now ;;
  r <- fetch_and_cleanup ;;
  let st := snd r in
  let found := snd (fst r) in
  last_fetch <- now ;;
  end_time <- now ;;
  save_manifest (new_manifest st found start_time last_fetch end_time) ;;;
  ret (successful st, failed st, fetched_files st).

(** ** Reconciliation with SKILL.md *)

Definition get_skill_md_references : M (gset string) :=
  fun w =>
    (Returns match skill_md w with
             | None => ∅
             | Some content => list_to_set (re_findall_references content)
             end, w).

Record validation := {
  orphaned : list string;
  unreferenced : list string
}.

Definition always_excluded : gset string := {[ "README.md"; "docs_manifest.json" ]}.

Definition validate_skill_md (fetched : gset string) : M validation :=
  referenced <- get_skill_md_references ;;
  let orphaned := referenced ∖ fetched ∖ always_excluded in
  let unreferenced := fetched ∖ referenced ∖ always_excluded in
  ret {| orphaned := sorted_list orphaned;
         unreferenced := sorted_list unreferenced |}.

End Fetcher.

(** ** Sample environments

    Concrete instances of the environment, to run the model on: the
    [n]-th request is answered by the [n]-th element of a script, the
    manifest on disk parses to [stored], every sitemap parses to [root]. *)

Definition sample_digest (s : string) : string := "sha256:" +:+ s.

Definition sample_urlparse (url : string) : option parsed_url :=
  match strip_prefix "https://code.claude.com" url with
  | Some path =>
      Some {| scheme := "https"; netloc := "code.claude.com"; url_path := path |}
  | None => None
  end.

Definition sample_env (script : list http_result)
    (stored : gmap string entry) (root : option sitemap) : Env :=
  {| http_get := fun n _ => nth n script (GetRaises "connection refused");
     random_bits := fun n => N.of_nat n;
     clock := fun n => Z.of_nat n;
     isoformat := fun t => "T" +:+ pretty t;
     sha256_hexdigest := sample_digest;
     json_loads := fun _ =>
       Some {| raw_files := Some stored; raw_last_updated := None;
               raw_description := None; raw_metadata := None |};
     json_dumps := fun m => "manifest";
     et_fromstring := fun _ => root;
     urlparse := sample_urlparse |}.

Definition empty_world : World :=
  {| disk := ∅; skill_md := None; events := [];
     reqs := 0; draws := 0; ticks := 0 |}.

Definition status_only (status : Z) (header : option string) : http_result :=
  GetReturns {| status_code := status; retry_after := header; body := "" |}.

Definition sample_page : string :=
  "# Overview" +:+ newline +:+ "- install the command line tool first"
  +:+ newline +:+ "- then sign in with your account" +:+ newline.

Definition page_ok (text : string) : http_result :=
  GetReturns {| status_code := 200; retry_after := None; body := text |}.

Definition rate_limited_script : list http_result :=
  [status_only 429 (Some "5"); status_only 500 None; status_only 500 None;
   page_ok sample_page].


(** The claim about rate-limit waits as the specification words it:
    after the wait the same attempt is made again, with the attempt
    budget and the backoff index where they were. *)
Definition rate_limit_wait_is_free : Prop :=
  forall env url filename (k : nat) (rest : list nat) w n,
    rate_limited (answer env url w) n ->
    for_loop (attempt_page env url filename) (k :: rest) w
    = for_loop (attempt_page env url filename) (k :: rest)
        (after_rate_limit url n w).

(** An index document that references A.md and B.md. *)
Definition sample_skill_md : string :=
  "## Reference" +:+ newline +:+
  "- `references/A.md` - overview" +:+ newline +:+
  "- see also references/B.md" +:+ newline.

Definition sample_skill_world : World :=
  {| disk := ∅; skill_md := Some sample_skill_md; events := [];
     reqs := 0; draws := 0; ticks := 0 |}.

(** The claim about an empty sitemap as the specification words it. *)
Definition empty_sitemap_gives_fallback : Prop :=
  forall env sitemap_url w root,
    sitemap_of env (answer env sitemap_url w) = Some root ->
    sitemap_urls root = [] ->
    fst (discover_claude_code_pages env sitemap_url w) = Returns get_fallback_pages.

Definition empty_sitemap : sitemap := {| ns_locs := []; plain_locs := [] |}.

(** A manifest that already holds the sample page. *)
Definition sample_stored : gmap string entry :=
  {[ "overview.md" :=
       {| original_url := Some "https://code.claude.com/docs/en/overview";
          hash := Some (sample_digest sample_page);
          last_updated := Some "2025-01-01T00:00:00";
          source := None |} ]}.

Definition sample_manifest : manifest :=
  {| files := sample_stored; manifest_last_updated := None;
     description := None; metadata := None |}.

(** What holds of a run in progress, started in world [w0]: the entries
    of the new manifest are those of the fetched files, only fetched
    files have been touched, and no file has gone. *)
Definition run_invariant (w0 : World) (st : run) (w : World) : Prop :=
  dom (new_files st) = fetched_files st /\
  (forall name, name ∉ fetched_files st -> disk w !! name = disk w0 !! name) /\
  (forall name, is_Some (disk w0 !! name) -> is_Some (disk w !! name)).

(** A references directory left by an earlier run, with a page that is no
    longer published, and the answers of a run that finds one page. *)
Definition sample_sitemap : sitemap :=
  {| ns_locs := [Some "https://code.claude.com/docs/en/overview"];
     plain_locs := [] |}.

Definition sample_old_files : gmap string entry :=
  <["retired.md" :=
      {| original_url := Some "https://code.claude.com/docs/en/retired";
         hash := Some (sample_digest "# Retired");
         last_updated := Some "2024-06-01T00:00:00";
         source := None |}]>
  (<["README.md" :=
      {| original_url := None; hash := None;
         last_updated := None; source := None |}]> sample_stored).

Definition sample_run_script : list http_result :=
  [page_ok "<urlset>"; page_ok "<urlset>"; page_ok sample_page;
   page_ok "## 1.0.0"].

Definition sample_run_env : Env :=
  sample_env sample_run_script sample_old_files (Some sample_sitemap).

Definition sample_run_world : World :=
  {| disk := {[ "docs_manifest.json" := "{}"; "README.md" := "# References";
                "retired.md" := "# Retired"; "overview.md" := sample_page ]};
     skill_md := None; events := []; reqs := 0; draws := 0; ticks := 0 |}.

(** A computation that never ends in [sys.exit]. *)
Definition no_exit {A} (m : M A) : Prop :=
  forall w code, fst (m w) <> Raises (SystemExit code).

(** A sitemap whose only page is not an English one. *)
Definition french_sitemap : sitemap :=
  {| ns_locs := [Some "https://code.claude.com/docs/fr/overview"];
     plain_locs := [] |}.

(** ** Vocabulary for whole runs of the retry loop *)

(** The world after [k] transport failures in a row, at the attempts
    [start], [start + 1], ...: each is a request followed by its backoff
    sleep. *)
Fixpoint after_failures (env : Env) (url : string) (start k : nat) (w : World)
  : World :=
  match k with
  | O => w
  | S k' => after_failures env url (S start) k' (after_backoff env url start w)
  end.

(** A response the retry loop does not take for a failure: it came
    back, and its status is neither 429 nor an error. *)
Definition accepted (res : http_result) (r : response) : Prop :=
  res = GetReturns r /\ status_code r <> 429%Z /\
  is_error_status (status_code r) = false.

(** The [i]-th answer to [url] counted from world [w]. *)
Definition nth_answer (env : Env) (url : string) (w : World) (i : nat)
  : http_result :=
  http_get env (reqs w + i) url.

Definition page_url (base_url path : string) : string :=
  base_url +:+ path +:+ ".md".

Definition html_page : string :=
  "<!DOCTYPE html><html><body>Not Found</body></html>".

(** ** Vocabulary for discovery *)

(** The base URL a candidate sitemap gives, when its request comes back
    with status 200, the body parses, a first location is found and that
    location parses as a URL. *)
Definition sitemap_base (env : Env) (res : http_result) : option string :=
  match res with
  | GetRaises _ => None
  | GetReturns r =>
      if (status_code r =? 200)%Z then
        root ← et_fromstring env (body r);
        first ← first_url root;
        parsed ← urlparse env first;
        Some (scheme parsed +:+ "://" +:+ netloc parsed)
      else None
  end.

Definition preferred_sitemap : string := "https://code.claude.com/docs/sitemap.xml".
Definition second_sitemap : string := "https://docs.anthropic.com/sitemap.xml".

(** ** Vocabulary for the end of a run *)

(** The manifest [save_manifest] writes for the run [st]: the one
    [fetch_docs] hands over, stamped and described. *)
Definition written_manifest (env : Env) (st : run)
    (found : option string * string) (w : World) (w1 : World) : manifest :=
  {| files := new_files st;
     manifest_last_updated := Some (isoformat env (clock env (S (S (ticks w1)))));
     description := Some "Claude Code documentation manifest for cc-docs skill.";
     metadata :=
       metadata (new_manifest env st found (clock env (ticks w))
                   (clock env (ticks w1)) (clock env (S (ticks w1)))) |}.

(** The world [fetch_docs] leaves, from the world [w1] after the
    cleanup: three readings of the clock and the manifest written. *)
Definition after_save (env : Env) (m : manifest) (w1 : World) : World :=
  set_disk (<[MANIFEST_FILE := json_dumps env m]> (disk w1))
    (record_event (EvWrite MANIFEST_FILE)
       (count_tick (count_tick (count_tick w1)))).

(** * Properties *)

(** ** Strings *)

Section StringFacts.

Implicit Types s t p sep suf : string.

#[local] Arguments String.append !_ _ / : simpl nomatch.

Lemma append_nil_r s : s +:+ "" = s.
Proof. induction s; simpl; congruence. Qed.

Lemma append_assoc s t u : (s +:+ t) +:+ u = s +:+ (t +:+ u).
Proof. induction s; simpl; congruence. Qed.

Lemma length_append s t :
  String.length (s +:+ t) = (String.length s + String.length t)%nat.
Proof. induction s; simpl; congruence. Qed.

Lemma strip_prefix_Some p s r : strip_prefix p s = Some r <-> s = p +:+ r.
Proof.
  revert s. induction p as [|a p IH]; intros s; simpl.
  - split; congruence.
  - destruct s as [|b s]; [split; discriminate|].
    destruct (Ascii.eqb_spec a b) as [->|Hne].
    + rewrite IH. split; congruence.
    + split; [discriminate | congruence].
Qed.

Lemma startswith_true p s : startswith p s = true <-> exists r, s = p +:+ r.
Proof.
  unfold startswith. destruct (strip_prefix p s) as [r|] eqn:E.
  - apply strip_prefix_Some in E. split; eauto.
  - split; [discriminate|]. intros [r Hr].
    apply strip_prefix_Some in Hr. congruence.
Qed.

Lemma contains_true sub s :
  contains sub s = true <-> exists a b, s = a +:+ sub +:+ b.
Proof.
  induction s as [|c s IH]; simpl.
  - rewrite orb_false_r, startswith_true. split.
    + intros [r Hr]. exists "", r. exact Hr.
    + intros (a & b & H). destruct a; [eauto | discriminate].
  - rewrite orb_true_iff, startswith_true, IH. split.
    + intros [[r Hr] | (a & b & H)].
      * exists "", r. exact Hr.
      * exists (String c a), b. simpl. congruence.
    + intros (a & b & H). destruct a as [|c' a]; simpl in H.
      * left. eauto.
      * right. exists a, b. congruence.
Qed.

Lemma contains_false_tail sub c s :
  contains sub (String c s) = false -> contains sub s = false.
Proof. simpl. intros H. apply orb_false_iff in H. tauto. Qed.

Lemma partition_Some sep s b a :
  partition sep s = Some (b, a) -> s = b +:+ sep +:+ a.
Proof.
  revert b. induction s as [|c s IH]; intros b; simpl.
  - destruct (strip_prefix sep "") as [r|] eqn:E; [|discriminate].
    intros [= <- <-]. by apply strip_prefix_Some in E.
  - destruct (strip_prefix sep (String c s)) as [r|] eqn:E.
    + intros [= <- <-]. by apply strip_prefix_Some in E.
    + destruct (partition sep s) as [[b' a']|]; [|discriminate].
      intros [= <- <-]. simpl. f_equal. by apply IH.
Qed.

Lemma partition_None sep s : partition sep s = None <-> contains sep s = false.
Proof.
  induction s as [|c s IH]; simpl; unfold startswith.
  - destruct (strip_prefix sep ""); simpl; split; congruence.
  - destruct (strip_prefix sep (String c s)); simpl; [split; discriminate|].
    rewrite <- IH. destruct (partition sep s) as [[? ?]|]; split; congruence.
Qed.

Lemma partition_shorter sep s b a :
  sep <> "" -> partition sep s = Some (b, a) ->
  (String.length a < String.length s)%nat.
Proof.
  intros Hne H. apply partition_Some in H. subst s.
  rewrite !length_append. destruct sep; [done | simpl; lia].
Qed.

Lemma split_fuel_S n sep s :
  split_fuel (S n) sep s = match partition sep s with
                           | None => [s]
                           | Some (b, a) => b :: split_fuel n sep a
                           end.
Proof. reflexivity. Qed.

Lemma split_fuel_nil n sep : sep <> "" -> split_fuel n sep "" = [""].
Proof.
  intros Hne. destruct n; [done|]. rewrite split_fuel_S.
  destruct (partition sep "") as [[b a]|] eqn:E; [|done].
  apply partition_shorter in E; [simpl in E; lia | done].
Qed.

Lemma split_fuel_enough sep n m s :
  sep <> "" -> (String.length s <= n)%nat -> (String.length s <= m)%nat ->
  split_fuel n sep s = split_fuel m sep s.
Proof.
  intros Hne. revert m s. induction n as [|n IH]; intros m s Hn Hm.
  - destruct s; [|simpl in Hn; lia]. by rewrite !split_fuel_nil.
  - destruct m as [|m].
    + destruct s; [|simpl in Hm; lia]. by rewrite !split_fuel_nil.
    + rewrite !split_fuel_S.
      destruct (partition sep s) as [[b a]|] eqn:E; [|done].
      f_equal. pose proof (partition_shorter _ _ _ _ Hne E).
      apply IH; lia.
Qed.

(** The equation [split] satisfies for a non-empty separator. *)
Lemma split_unfold sep s :
  sep <> "" ->
  split sep s = match partition sep s with
                | None => [s]
                | Some (b, a) => b :: split sep a
                end.
Proof.
  intros Hne. unfold split. destruct (String.length s) as [|n] eqn:Hlen.
  - destruct (partition sep s) as [[b a]|] eqn:E; [|done].
    apply partition_shorter in E; [lia | done].
  - rewrite split_fuel_S.
    destruct (partition sep s) as [[b a]|] eqn:E; [|done].
    f_equal. pose proof (partition_shorter _ _ _ _ Hne E).
    apply split_fuel_enough; [done | lia | lia].
Qed.

Lemma last_item_cons x l : l <> [] -> last_item (x :: l) = last_item l.
Proof. destruct l; [done|]. intros _. reflexivity. Qed.

Lemma split_fuel_nonempty n sep s : split_fuel n sep s <> [].
Proof. destruct n; simpl; [done|]. by destruct (partition sep s) as [[? ?]|]. Qed.

(** The last piece of a split: what follows the last separator found,
    in which the separator does not occur again. *)
Lemma last_split sep s :
  sep <> "" ->
  contains sep (last_item (split sep s)) = false /\
  (contains sep s = true ->
   exists head, s = head +:+ sep +:+ last_item (split sep s)) /\
  (contains sep s = false -> last_item (split sep s) = s).
Proof.
  intros Hne.
  induction s as [s IH] using (induction_ltof1 _ String.length).
  unfold ltof in IH.
  rewrite split_unfold by done.
  destruct (partition sep s) as [[b a]|] eqn:E.
  - pose proof (partition_shorter _ _ _ _ Hne E) as Hlt.
    pose proof (partition_Some _ _ _ _ E) as Hs.
    destruct (IH a Hlt) as (Hno & Hyes & Hid).
    rewrite last_item_cons by apply split_fuel_nonempty.
    split; [exact Hno|]. split.
    + intros _. destruct (contains sep a) eqn:Ha.
      * destruct (Hyes eq_refl) as [head Hhead].
        exists (b +:+ sep +:+ head). rewrite Hs at 1. rewrite Hhead at 1.
        by rewrite !append_assoc.
      * rewrite (Hid eq_refl). by exists b.
    + intros Hc. apply partition_None in Hc. congruence.
  - apply partition_None in E. unfold last_item; simpl.
    split; [exact E|]. split; [congruence | done].
Qed.

Lemma contains_char_append c s t :
  contains (String c "") (s +:+ t)
  = contains (String c "") s || contains (String c "") t.
Proof.
  induction s as [|b s IH]; simpl.
  - unfold startswith; simpl. by destruct t.
  - rewrite IH. unfold startswith; simpl.
    destruct (Ascii.eqb c b); simpl; [done|]. done.
Qed.

Lemma replace_char_clean c new s :
  contains (String c "") new = false ->
  contains (String c "") (replace_char c new s) = false.
Proof.
  intros Hnew. induction s as [|b s IH]; simpl; [done|].
  destruct (Ascii.eqb c b) eqn:E.
  - by rewrite contains_char_append, Hnew, IH.
  - simpl. rewrite IH. unfold startswith; simpl. by rewrite E.
Qed.

Lemma replace_char_absent c new s :
  contains (String c "") s = false -> replace_char c new s = s.
Proof.
  induction s as [|b s IH]; simpl; [done|].
  unfold startswith; simpl. destruct (Ascii.eqb c b); simpl; [done|].
  intros H. by rewrite IH.
Qed.

Lemma endswith_true suf s : endswith suf s = true <-> exists a, s = a +:+ suf.
Proof.
  induction s as [|c s IH]; simpl.
  - rewrite orb_false_r, String.eqb_eq. split.
    + intros ->. by exists "".
    + intros [a H]. destruct a; [done | discriminate].
  - rewrite orb_true_iff, String.eqb_eq, IH. split.
    + intros [-> | [a ->]]; [by exists "" | by exists (String c a)].
    + intros [a H]. destruct a as [|c' a]; simpl in H; [by left|].
      right. exists a. congruence.
Qed.

Lemma endswith_append suf s : endswith suf (s +:+ suf) = true.
Proof. apply endswith_true. by exists s. Qed.

End StringFacts.

(** [int] on some literals: signs, single underscores between digits and
    the white space allowed around the literal. *)
Example py_int_examples :
  py_int " +5 " = Some 5%Z /\ py_int "-12" = Some (-12)%Z /\
  py_int "5_0" = Some 50%Z /\ py_int "5__0" = None /\
  py_int "_5" = None /\ py_int "5_" = None /\
  py_int "" = None /\ py_int "+" = None /\
  py_int "+ 5" = None /\ py_int "1 2" = None /\
  py_int (String (ascii_of_nat 28) "5") = None /\
  py_int (String (ascii_of_nat 160) "5") = Some 5%Z.
Proof. repeat split; reflexivity. Qed.

(** ** Filename derivation *)

(** The two branches of [url_to_safe_filename] are one formula: without
    a separator the replacement changes nothing. *)
Lemma url_to_safe_filename_eq url_path :
  url_to_safe_filename url_path
  = let safe_name := replace_char "/" "__" (trimmed_path url_path) in
    if endswith ".md" safe_name then safe_name else safe_name +:+ ".md".
Proof.
  unfold url_to_safe_filename. cbv zeta.
  destruct (contains "/" (trimmed_path url_path)) eqn:Hc; simpl.
  - by destruct (endswith ".md" _).
  - rewrite replace_char_absent by done. by destruct (endswith ".md" _).
Qed.

(** A text that starts with the separator is split right after it. *)
Lemma split_leading sep rest :
  sep <> "" ->
  contains sep rest = false ->
  last_item (split sep (sep +:+ rest)) = rest.
Proof.
  intros Hne Hrest.
  assert (Hp : partition sep (sep +:+ rest) = Some ("", rest)).
  { assert (Hs : strip_prefix sep (sep +:+ rest) = Some rest)
      by by apply strip_prefix_Some.
    destruct (sep +:+ rest); simpl; by rewrite Hs. }
  rewrite split_unfold, Hp by done.
  rewrite last_item_cons.
  - by apply last_split.
  - apply split_fuel_nonempty.
Qed.

(** The prefix tests of [url_to_safe_filename], in the order in which
    the code makes them. *)
Lemma trimmed_path_cases url_path :
  trimmed_path url_path
  = if contains "/docs/en/" url_path
    then last_item (split "/docs/en/" url_path)
    else if contains "/en/docs/claude-code/" url_path
    then last_item (split "/en/docs/claude-code/" url_path)
    else if contains "/docs/claude-code/" url_path
    then last_item (split "/docs/claude-code/" url_path)
    else if contains "/claude-code/" url_path
    then last_item (split "/claude-code/" url_path)
    else if contains "claude-code/" url_path
    then last_item (split "claude-code/" url_path)
    else url_path.
Proof.
  unfold trimmed_path, recognized_prefix, doc_prefixes. cbn [List.find].
  repeat (match goal with |- context [contains ?p url_path] =>
            destruct (contains p url_path); try reflexivity end).
Qed.

(** The derivation on the kinds of path the sitemap and the fallback
    list give, one for each prefix, and on a path without any. *)
Example url_to_safe_filename_examples :
  url_to_safe_filename "/docs/en/overview" = "overview.md" /\
  url_to_safe_filename "/en/docs/claude-code/sdk/python" = "sdk__python.md" /\
  url_to_safe_filename "/docs/claude-code/hooks.md" = "hooks.md" /\
  url_to_safe_filename "/claude-code/a/b" = "a__b.md" /\
  url_to_safe_filename "claude-code/setup" = "setup.md" /\
  url_to_safe_filename "/other/page" = "__other__page.md" /\
  url_to_safe_filename "/docs/en/a/docs/en/b" = "b.md" /\
  url_to_safe_filename "/docs/en/docs/en/x" = "docs__en__x.md".
Proof. repeat split; reflexivity. Qed.

(** ** Markdown validation *)

Section Validation.

#[local] Arguments String.append !_ _ / : simpl nomatch.

Lemma lstrip_suffix s : exists a, s = a +:+ lstrip s.
Proof.
  induction s as [|c s [a IH]]; simpl.
  - by exists "".
  - destruct (isspace c).
    + exists (String c a). simpl. congruence.
    + by exists "".
Qed.

Lemma rstrip_prefix s : exists b, s = rstrip s +:+ b.
Proof.
  induction s as [|c s [b IH]]; simpl.
  - by exists "".
  - destruct (rstrip s) as [|c' r] eqn:E.
    + destruct (isspace c).
      * by exists (String c s).
      * exists b. simpl in *. congruence.
    + exists b. simpl in *. congruence.
Qed.

(** A stripped line is a piece of the line, so what it starts with
    occurs in the line: the first disjunct of the indicator test adds
    nothing to the second. *)
Lemma startswith_strip_contains indicator line :
  startswith indicator (strip line) = true -> contains indicator line = true.
Proof.
  intros [r Hr]%startswith_true. apply contains_true.
  destruct (lstrip_suffix line) as [a Ha].
  destruct (rstrip_prefix (lstrip line)) as [b Hb].
  unfold strip in Hr. rewrite Hr in Hb. rewrite Hb in Ha.
  exists a, (r +:+ b). rewrite Ha at 1. by rewrite !append_assoc.
Qed.

Lemma line_has_indicator_mentions line :
  line_has_indicator line = mentions_indicator line.
Proof.
  unfold line_has_indicator, mentions_indicator.
  induction markdown_indicators as [|i l IH]; simpl; [done|].
  rewrite IH. f_equal.
  destruct (startswith i (strip line)) eqn:E; [|done].
  by rewrite (startswith_strip_contains _ _ E).
Qed.

Lemma count_indicators_from (lines : list string) (n : nat) :
  fold_left (fun indicator_count line =>
               if line_has_indicator line then S indicator_count
               else indicator_count) lines n
  = (n + length (List.filter mentions_indicator lines))%nat.
Proof.
  revert n. induction lines as [|line lines IH]; intros n; simpl; [lia|].
  rewrite IH, line_has_indicator_mentions.
  destruct (mentions_indicator line); simpl; lia.
Qed.

Lemma count_indicators_filter (lines : list string) :
  count_indicators lines = length (List.filter mentions_indicator lines).
Proof. unfold count_indicators. by rewrite count_indicators_from. Qed.

End Validation.

(** C6: [validate_markdown_content] raises (a [ValueError]) exactly when
    the content is empty, starts with ["<!DOCTYPE"], has ["<html"] in its
    first 100 characters, is shorter than 50 once stripped, or has fewer
    than 3 lines with a markdown indicator among its first 50; all other
    content is accepted. *)
Theorem validate_markdown_content_rejects (content filename : string) :
  ((exists e, validate_markdown_content content filename = Raises e)
   <-> rejected content) /\
  (validate_markdown_content content filename = Returns tt
   <-> ~ rejected content) /\
  (forall e, validate_markdown_content content filename = Raises e ->
             exists v, e = ValueError v).
Proof.
  unfold validate_markdown_content, rejected, looks_like_html, too_short,
    too_few_indicators.
  cbv zeta. rewrite count_indicators_filter.
  generalize (slice_to 100 content) as first100.
  generalize (String.length (strip content)) as stripped.
  generalize (length (List.filter mentions_indicator
                        (take 50 (split newline content)))) as count.
  intros count stripped first100.
  destruct content as [|c content]; simpl.
  { repeat split; try (intros; by eauto); try discriminate.
    - intros H. exfalso. apply H. by left; left.
    - intros e [= <-]. eauto. }
  set (text := String c content).
  destruct (startswith "<!DOCTYPE" text) eqn:Hd; simpl.
  { repeat split; try (intros; by eauto 6); try discriminate.
    - intros H. exfalso. apply H. left. by right; left.
    - intros e [= <-]. eauto. }
  destruct (contains "<html" first100) eqn:Hh; simpl.
  { repeat split; try (intros; by eauto 6); try discriminate.
    - intros H. exfalso. apply H. left. by right; right.
    - intros e [= <-]. eauto. }
  destruct (Nat.ltb_spec stripped 50) as [Hs|Hs].
  { repeat split; try (intros; by eauto 6); try discriminate.
    - intros H. exfalso. apply H. right. by left.
    - intros e [= <-]. eauto. }
  destruct (Nat.ltb_spec count 3) as [Hc|Hc].
  { repeat split; try (intros; by eauto 6); try discriminate.
    - intros H. exfalso. apply H. right. by right.
    - intros e [= <-]. eauto. }
  repeat split; try done.
  - intros [e He]. discriminate.
  - intros [[?|[?|?]]|[?|?]]; try discriminate; lia.
  - intros _ [[?|[?|?]]|[?|?]]; try discriminate; lia.
Qed.

(** ** The changelog header *)

Section Changelog.

#[local] Arguments String.append !_ _ / : simpl nomatch.

Lemma rstrip_keeps a c b :
  isspace c = false ->
  (S (String.length a) <= String.length (rstrip (a +:+ String c b)))%nat.
Proof.
  intros Hc. induction a as [|x a IH]; simpl.
  - rewrite Hc. destruct (rstrip b); simpl; lia.
  - destruct (rstrip (a +:+ String c b)) as [|y r] eqn:E; simpl in *; lia.
Qed.

(** The header alone is 108 characters long once stripped, whatever
    follows it. *)
Lemma strip_changelog_header text :
  (108 <= String.length (strip (changelog_header +:+ text)))%nat.
Proof.
  unfold strip.
  assert (lstrip (changelog_header +:+ text) = changelog_header +:+ text)
    as -> by reflexivity.
  pose (h := slice_to 107 changelog_header).
  assert (changelog_header +:+ text
          = h +:+ String "-" ((newline +:+ newline) +:+ text)) as ->.
  { change changelog_header with (h +:+ String "-" (newline +:+ newline)).
    by rewrite append_assoc. }
  etrans; [|apply rstrip_keeps; reflexivity]. reflexivity.
Qed.

Lemma accept_changelog_ok text :
  accept_changelog text = Returns ("changelog.md", changelog_header +:+ text).
Proof.
  unfold accept_changelog. cbv zeta.
  pose proof (strip_changelog_header text) as H.
  destruct (Nat.ltb_spec (String.length (strip (changelog_header +:+ text))) 100);
    [lia | done].
Qed.

End Changelog.

(** ** Loops *)

Lemma for_loop_raises {X A} (body : X -> M (loop_step A)) xs w e :
  fst (for_loop body xs w) = Raises e ->
  exists x w', x ∈ xs /\ fst (body x w') = Raises e.
Proof.
  revert w. induction xs as [|x xs IH]; intros w; simpl.
  - discriminate.
  - unfold bind. destruct (body x w) as [[[|a]|e'] w'] eqn:E; simpl.
    + intros H. destruct (IH _ H) as (y & w'' & Hy & Hr).
      exists y, w''. split; [by right | done].
    + discriminate.
    + intros [= ->]. exists x, w. split; [by left|]. by rewrite E.
Qed.

(** ** The monad *)

Section MonadFacts.

Context {A B : Type}.

Lemma bind_Returns (m : M A) (k : A -> M B) w a w' :
  m w = (Returns a, w') -> bind m k w = k a w'.
Proof. unfold bind. by intros ->. Qed.

Lemma bind_Raises (m : M A) (k : A -> M B) w e w' :
  m w = (Raises e, w') -> bind m k w = (Raises e, w').
Proof. unfold bind. by intros ->. Qed.

Lemma try_except_Returns (m : M A) h w a w' :
  m w = (Returns a, w') -> try_except m h w = (Returns a, w').
Proof. unfold try_except. by intros ->. Qed.

Lemma try_except_Raises (m : M A) h w e w' :
  m w = (Raises e, w') ->
  try_except m h w = match h e with
                     | Some k => k w'
                     | None => (Raises e, w')
                     end.
Proof. unfold try_except. by intros ->. Qed.

End MonadFacts.

(** ** Backoff arithmetic *)

Lemma backoff_delay_nonneg attempt : (0 <= backoff_delay attempt)%Z.
Proof.
  unfold backoff_delay, RETRY_DELAY, MAX_RETRY_DELAY.
  apply Z.min_glb; [|lia].
  assert (0 < 2 ^ Z.of_nat attempt)%Z by (apply Z.pow_pos_nonneg; lia). lia.
Qed.

Lemma backoff_delay_capped attempt : (backoff_delay attempt <= MAX_RETRY_DELAY)%Z.
Proof. unfold backoff_delay. apply Z.le_min_r. Qed.

(** Doubling, up to the cap. *)
Lemma backoff_delay_doubles attempt :
  backoff_delay (S attempt) = Z.min (2 * backoff_delay attempt) MAX_RETRY_DELAY.
Proof.
  unfold backoff_delay, RETRY_DELAY, MAX_RETRY_DELAY.
  rewrite Nat2Z.inj_succ, Z.pow_succ_r by lia. lia.
Qed.

Lemma random_unit_range bits : (0 <= random_unit bits)%Q /\ (random_unit bits < 1)%Q.
Proof.
  unfold random_unit, Qle, Qlt. cbn [Qnum Qden].
  pose proof (N.mod_lt bits (2 ^ 53) ltac:(done)) as H.
  pose proof (N2Z.is_nonneg (bits mod 2 ^ 53)).
  split; [lia|].
  rewrite Z.mul_1_r, Z.mul_1_l.
  change (Z.pos (2 ^ 53)) with (Z.of_N (2 ^ 53)). lia.
Qed.

Lemma jitter_range env w : ((1 # 2) <= jitter env w)%Q /\ (jitter env w <= 1)%Q.
Proof.
  unfold jitter. destruct (random_unit_range (random_bits env (draws w))) as [H0 H1].
  set (r := random_unit _) in *. split.
  - apply Qle_trans with ((1 # 2) + 0)%Q; [done|].
    apply Qplus_le_r. by apply Qmult_le_0_compat.
  - apply Qle_trans with ((1 # 2) + (1 - (1 # 2)) * 1)%Q; [|done].
    apply Qplus_le_r. apply Qmult_le_l; [done | by apply Qlt_le_weak].
Qed.

Lemma jittered_delay_nonneg env attempt w :
  Qle_bool 0 (inject_Z (backoff_delay attempt) * jitter env w) = true.
Proof.
  apply Qle_bool_iff. apply Qmult_le_0_compat.
  - change 0%Q with (inject_Z 0). rewrite <- Zle_Qle. apply backoff_delay_nonneg.
  - destruct (jitter_range env w) as [H _].
    eapply Qle_trans; [|exact H]. done.
Qed.

(** ** One attempt of the retry loop *)

Section Attempts.

Context (env : Env).

Lemma for_loop_Next {X A} (body : X -> M (loop_step A)) x rest w w' :
  body x w = (Returns Next, w') ->
  for_loop body (x :: rest) w = for_loop body rest w'.
Proof. intros H. simpl. by rewrite (bind_Returns _ _ _ _ _ H). Qed.

Lemma for_loop_Done {X A} (body : X -> M (loop_step A)) x rest w a w' :
  body x w = (Returns (Done a), w') ->
  for_loop body (x :: rest) w = (Returns (Some a), w').
Proof. intros H. simpl. by rewrite (bind_Returns _ _ _ _ _ H). Qed.

Lemma for_loop_Raises {X A} (body : X -> M (loop_step A)) x rest w e w' :
  body x w = (Raises e, w') ->
  for_loop body (x :: rest) w = (Raises e, w').
Proof. intros H. simpl. by rewrite (bind_Raises _ _ _ _ _ H). Qed.

Lemma sleep_nonneg secs w :
  Qle_bool 0 secs = true -> sleep secs w = (Returns tt, record_event (EvSleep secs) w).
Proof. unfold sleep. by intros ->. Qed.

Lemma wait_rate_limit_ok {A} r n w :
  retry_after_seconds r = Returns n -> (0 <= n)%Z ->
  wait_rate_limit (A:=A) r w
  = (Returns Next, record_event (EvSleep (inject_Z n)) w).
Proof.
  intros Hn Hpos. unfold wait_rate_limit.
  rewrite (bind_Returns _ _ w n w) by (unfold lift; by rewrite Hn).
  rewrite (bind_Returns _ _ w tt (record_event (EvSleep (inject_Z n)) w));
    [done|].
  apply sleep_nonneg. apply Qle_bool_iff.
  change 0%Q with (inject_Z 0). by rewrite <- Zle_Qle.
Qed.

(** Whatever the 429 branch raises is the [ValueError] of [int] or of
    [time.sleep], and it raises before anything is done. *)
Lemma wait_rate_limit_raises {A} r w e w' :
  wait_rate_limit (A:=A) r w = (Raises e, w') ->
  w' = w /\
  (e = ValueError NegativeSleep \/ exists s, e = ValueError (InvalidLiteral s)).
Proof.
  unfold wait_rate_limit, bind, lift, retry_after_seconds, sleep, log, raise, ret.
  destruct (retry_after r) as [s|].
  - destruct (py_int s) as [n|].
    + destruct (Qle_bool 0 (inject_Z n)); intros [= <- <-]; eauto.
    + intros [= <- <-]; eauto.
  - destruct (Qle_bool 0 (inject_Z 60)); intros [= <- <-]; eauto.
Qed.

Lemma backoff_or_give_up_retry {A} attempt failure w :
  (attempt < MAX_RETRIES - 1)%nat ->
  backoff_or_give_up (A:=A) env attempt failure w
  = (Returns Next,
     record_event (EvSleep (inject_Z (backoff_delay attempt) * jitter env w)%Q)
                  (count_draw w)).
Proof.
  intros Hlt. unfold backoff_or_give_up.
  destruct (Nat.ltb_spec attempt (MAX_RETRIES - 1)) as [_|]; [|lia].
  cbv zeta. rewrite (bind_Returns _ _ w (jitter env w) (count_draw w)) by done.
  rewrite (bind_Returns _ _ (count_draw w) tt
             (record_event
                (EvSleep (inject_Z (backoff_delay attempt) * jitter env w)%Q)
                (count_draw w))); [done|].
  apply sleep_nonneg. apply jittered_delay_nonneg.
Qed.

Lemma backoff_or_give_up_last {A} attempt failure w :
  (MAX_RETRIES - 1 <= attempt)%nat ->
  backoff_or_give_up (A:=A) env attempt failure w = (Raises failure, w).
Proof.
  intros Hge. unfold backoff_or_give_up.
  by destruct (Nat.ltb_spec attempt (MAX_RETRIES - 1)) as [|_]; [lia|].
Qed.

Lemma validate_raises_value_error content filename e :
  validate_markdown_content content filename = Raises e ->
  exists v, e = ValueError v.
Proof.
  unfold validate_markdown_content. cbv zeta.
  repeat (match goal with |- context [if ?b then _ else _] => destruct b end);
    intros [= <-]; eauto.
Qed.

Lemma session_get_raises url w msg :
  answer env url w = GetRaises msg ->
  session_get env url w
  = (Raises (RequestException (ConnectionError msg)), after_request url w).
Proof. unfold answer, session_get. by intros ->. Qed.

Lemma session_get_returns url w r :
  answer env url w = GetReturns r ->
  session_get env url w = (Returns r, after_request url w).
Proof. unfold answer, session_get. by intros ->. Qed.

Lemma raise_for_status_error r w :
  transport_error (GetReturns r) = Some (HTTPError (status_code r)) ->
  raise_for_status r w = (Raises (RequestException (HTTPError (status_code r))), w).
Proof.
  unfold transport_error, raise_for_status, is_error_status.
  destruct (status_code r =? 429)%Z; [discriminate|].
  by destruct ((400 <=? status_code r) && (status_code r <? 600))%Z.
Qed.

Lemma transport_error_status r e :
  transport_error (GetReturns r) = Some e ->
  e = HTTPError (status_code r) /\ (status_code r =? 429)%Z = false.
Proof.
  unfold transport_error.
  destruct (status_code r =? 429)%Z; [discriminate|].
  destruct (is_error_status (status_code r)); [|discriminate].
  by intros [= <-].
Qed.

(** The handler of [attempt_page] at a [RequestException]. *)
Lemma attempt_page_request_error url filename attempt w e :
  transport_error (answer env url w) = Some e ->
  attempt_page env url filename attempt w
  = backoff_or_give_up env attempt (FetchFailed filename MAX_RETRIES e)
      (after_request url w).
Proof.
  intros He. unfold attempt_page.
  destruct (answer env url w) as [msg|r] eqn:Ha.
  - injection He as <-.
    rewrite (try_except_Raises _ _ w
               (RequestException (ConnectionError msg)) (after_request url w));
      [done|].
    apply bind_Raises. by apply session_get_raises.
  - destruct (transport_error_status _ _ He) as [-> H429].
    rewrite (try_except_Raises _ _ w
               (RequestException (HTTPError (status_code r)))
               (after_request url w)); [done|].
    rewrite (bind_Returns _ _ _ _ _ (session_get_returns _ _ _ Ha)).
    rewrite H429. apply bind_Raises. by apply raise_for_status_error.
Qed.

Lemma attempt_page_transport_retry url filename attempt w e :
  transport_error (answer env url w) = Some e ->
  (attempt < MAX_RETRIES - 1)%nat ->
  attempt_page env url filename attempt w
  = (Returns Next, after_backoff env url attempt w).
Proof.
  intros He Hlt. rewrite (attempt_page_request_error _ _ _ _ _ He).
  by rewrite backoff_or_give_up_retry.
Qed.

Lemma attempt_page_transport_last url filename attempt w e :
  transport_error (answer env url w) = Some e ->
  (MAX_RETRIES - 1 <= attempt)%nat ->
  attempt_page env url filename attempt w
  = (Raises (FetchFailed filename MAX_RETRIES e), after_request url w).
Proof.
  intros He Hge. rewrite (attempt_page_request_error _ _ _ _ _ He).
  by rewrite backoff_or_give_up_last.
Qed.

Lemma attempt_page_rate_limited url filename attempt w n :
  rate_limited (answer env url w) n ->
  attempt_page env url filename attempt w
  = (Returns Next, after_rate_limit url n w).
Proof.
  intros (r & Ha & H429 & Hn & Hpos). unfold attempt_page.
  apply try_except_Returns.
  rewrite (bind_Returns _ _ _ _ _ (session_get_returns _ _ _ Ha)).
  apply Z.eqb_eq in H429 as ->. by apply wait_rate_limit_ok.
Qed.

End Attempts.

(** ** The retry loop of [fetch_markdown_content] *)

Lemma events_after_rate_limit url n w :
  events (after_rate_limit url n w)
  = events w ++ [EvGet url; EvSleep (inject_Z n)].
Proof. unfold after_rate_limit, after_request. simpl. by rewrite <- app_assoc. Qed.

Lemma events_after_backoff env url attempt w :
  events (after_backoff env url attempt w)
  = events w ++ [EvGet url;
                 EvSleep (inject_Z (backoff_delay attempt)
                          * jitter env (after_request url w))%Q].
Proof. unfold after_backoff, after_request. simpl. by rewrite <- app_assoc. Qed.

(** C9: a transport failure at attempt [k], with an attempt left, is
    followed by a sleep of [min(2 * 2^k, 30)] seconds times a factor in
    [0.5, 1.0], and then by the next attempt; the delay before the factor
    doubles from one attempt to the next and never exceeds 30. *)
Theorem backoff_after_transport_failure
    env url filename (k : nat) (rest : list nat) w e :
  transport_error (answer env url w) = Some e ->
  (k < MAX_RETRIES - 1)%nat ->
  let j := jitter env (after_request url w) in
  let w' := after_backoff env url k w in
  attempt_page env url filename k w = (Returns Next, w') /\
  for_loop (attempt_page env url filename) (k :: rest) w
  = for_loop (attempt_page env url filename) rest w' /\
  events w' = events w ++ [EvGet url; EvSleep (inject_Z (backoff_delay k) * j)%Q] /\
  backoff_delay k = Z.min (2 * 2 ^ Z.of_nat k) 30 /\
  ((1 # 2) <= j)%Q /\ (j <= 1)%Q /\
  backoff_delay k = (2 * 2 ^ Z.of_nat k)%Z /\
  backoff_delay (S k) = (2 * backoff_delay k)%Z /\
  (forall attempt, backoff_delay attempt <= 30)%Z /\
  (forall attempt,
     backoff_delay (S attempt) = Z.min (2 * backoff_delay attempt) 30).
Proof.
  intros He Hk j w'.
  pose proof (attempt_page_transport_retry env url filename k w e He Hk) as Hstep.
  split; [exact Hstep|].
  split; [by apply for_loop_Next|].
  split; [apply events_after_backoff|].
  split; [reflexivity|].
  split; [apply jitter_range|].
  split; [apply jitter_range|].
  assert (k = 0 \/ k = 1)%nat as Hcases by (unfold MAX_RETRIES in Hk; lia).
  split; [by destruct Hcases as [-> | ->]|].
  split; [by destruct Hcases as [-> | ->]|].
  split; [apply backoff_delay_capped | apply backoff_delay_doubles].
Qed.

Lemma backoff_after_transport_failure_witness :
  let env := sample_env [status_only 503 None; page_ok sample_page] ∅ None in
  let url := "https://code.claude.com/docs/en/overview.md" in
  transport_error (answer env url empty_world) = Some (HTTPError 503) /\
  (0 < MAX_RETRIES - 1)%nat /\
  for_loop (attempt_page env url "overview.md") [0; 1; 2]%nat empty_world
  = for_loop (attempt_page env url "overview.md") [1; 2]%nat
      (after_backoff env url 0 empty_world).
Proof.
  intros env url.
  assert (transport_error (answer env url empty_world) = Some (HTTPError 503))
    as He by reflexivity.
  assert (0 < MAX_RETRIES - 1)%nat as Hk by (unfold MAX_RETRIES; lia).
  split; [exact He|]. split; [exact Hk|].
  apply (backoff_after_transport_failure env url "overview.md" 0 [1; 2]%nat
           empty_world (HTTPError 503) He Hk).
Defined.

(** C3, as amended: a 429 is followed by a sleep of exactly the seconds
    of Retry-After (60 without the header); the wait has used up one
    iteration of the loop, so the attempts that remain are the later
    ones, and their backoff delays are those of their own indices. *)
Theorem rate_limit_wait_uses_an_attempt
    env url filename (k : nat) (rest : list nat) w n :
  rate_limited (answer env url w) n ->
  let w' := after_rate_limit url n w in
  attempt_page env url filename k w = (Returns Next, w') /\
  events w' = events w ++ [EvGet url; EvSleep (inject_Z n)] /\
  (rest <> [] ->
   for_loop (attempt_page env url filename) (k :: rest) w
   = for_loop (attempt_page env url filename) rest w') /\
  (forall k' rest' e,
     rest = k' :: rest' ->
     transport_error (answer env url w') = Some e ->
     (k' < MAX_RETRIES - 1)%nat ->
     for_loop (attempt_page env url filename) (k :: rest) w
     = for_loop (attempt_page env url filename) rest'
         (after_backoff env url k' w')).
Proof.
  intros Hrl w'.
  pose proof (attempt_page_rate_limited env url filename k w n Hrl) as Hstep.
  split; [exact Hstep|].
  split; [apply events_after_rate_limit|].
  split; [intros _; by apply for_loop_Next|].
  intros k' rest' e -> He Hk'.
  rewrite (for_loop_Next _ _ _ _ _ Hstep).
  apply for_loop_Next. by eapply attempt_page_transport_retry.
Qed.

Lemma rate_limit_wait_uses_an_attempt_witness :
  let env := sample_env rate_limited_script ∅ None in
  let url := "https://code.claude.com/docs/en/overview.md" in
  rate_limited (answer env url empty_world) 5 /\
  attempt_page env url "overview.md" 0 empty_world
  = (Returns Next, after_rate_limit url 5 empty_world).
Proof.
  intros env url.
  assert (rate_limited (answer env url empty_world) 5) as Hrl.
  { exists {| status_code := 429; retry_after := Some "5"; body := "" |}.
    split_and!; [reflexivity.. | lia]. }
  split; [exact Hrl|].
  apply (rate_limit_wait_uses_an_attempt env url "overview.md" 0 [1; 2]%nat
           empty_world 5 Hrl).
Defined.

(** The run that refutes the claim as worded: a 429, then two server
    errors.  The fetch gives up after these three requests, having seen
    two transport failures only, and its first backoff delay is that of
    attempt 1; retried from attempt 0 after the wait, it would have reached
    the fourth answer and succeeded. *)
Lemma rate_limit_wait_is_not_free :
  let env := sample_env rate_limited_script ∅ None in
  fst (fetch_markdown_content env "/docs/en/overview" "https://code.claude.com"
         empty_world)
  = Raises (FetchFailed "overview.md" 3 (HTTPError 500)) /\
  ~ rate_limit_wait_is_free.
Proof.
  split; [by vm_compute|].
  intros Hfree.
  specialize (Hfree (sample_env rate_limited_script ∅ None)
                "https://code.claude.com/docs/en/overview.md" "overview.md"
                0%nat [1; 2]%nat empty_world 5%Z).
  assert (rate_limited
            (answer (sample_env rate_limited_script ∅ None)
               "https://code.claude.com/docs/en/overview.md" empty_world) 5)
    as Hrl.
  { exists {| status_code := 429; retry_after := Some "5"; body := "" |}.
    split_and!; [reflexivity.. | lia]. }
  specialize (Hfree Hrl). apply (f_equal fst) in Hfree.
  vm_compute in Hfree. discriminate.
Qed.

(** C4, the failing run: a 429 at the last attempt uses up the loop,
    and the function falls off its end, returning [None], neither a
    (filename, content) pair nor an error; so it is with three 429
    answers in a row. *)
Theorem fetch_markdown_content_falls_through :
  (forall env url filename (k : nat) w n,
     rate_limited (answer env url w) n ->
     for_loop (attempt_page env url filename) [k] w
     = (Returns None, after_rate_limit url n w)) /\
  let env := sample_env [status_only 429 (Some "1"); status_only 429 (Some "1");
                         status_only 429 (Some "1")] ∅ None in
  let url := "https://code.claude.com/docs/en/overview.md" in
  let r := fetch_markdown_content env "/docs/en/overview"
             "https://code.claude.com" empty_world in
  fst r = Returns None /\
  events (snd r) = [EvGet url; EvSleep 1; EvGet url; EvSleep 1;
                    EvGet url; EvSleep 1].
Proof.
  split; [|by vm_compute].
  intros env url filename k w n Hrl.
  by rewrite (for_loop_Next _ _ _ _ _
                (attempt_page_rate_limited env url filename k w n Hrl)).
Qed.

(** ** The changelog fetcher *)

Lemma backoff_or_give_up_cases {A} env attempt failure w :
  (exists w', backoff_or_give_up (A:=A) env attempt failure w = (Returns Next, w'))
  \/ backoff_or_give_up (A:=A) env attempt failure w = (Raises failure, w).
Proof.
  destruct (Nat.lt_ge_cases attempt (MAX_RETRIES - 1)).
  - left. eexists. by apply backoff_or_give_up_retry.
  - right. by apply backoff_or_give_up_last.
Qed.

Lemma session_get_cases env url w :
  (exists r, session_get env url w = (Returns r, after_request url w)) \/
  (exists msg, session_get env url w
               = (Raises (RequestException (ConnectionError msg)),
                  after_request url w)).
Proof.
  destruct (answer env url w) as [msg|r] eqn:Ha.
  - right. exists msg. by apply session_get_raises.
  - left. exists r. by apply session_get_returns.
Qed.

Lemma raise_for_status_cases r w :
  raise_for_status r w = (Returns tt, w) \/
  raise_for_status r w = (Raises (RequestException (HTTPError (status_code r))), w).
Proof.
  unfold raise_for_status.
  destruct ((400 <=? status_code r) && (status_code r <? 600))%Z; auto.
Qed.

Lemma attempt_changelog_not_too_short env attempt w n :
  fst (attempt_changelog env attempt w) <> Raises (ValueError (ChangelogTooShort n)).
Proof.
  unfold attempt_changelog, try_except, bind.
  destruct (session_get_cases env changelog_url w) as [[r ->]|[msg ->]].
  - destruct (status_code r =? 429)%Z.
    + destruct (wait_rate_limit r (after_request changelog_url w))
        as [[step|e] w2] eqn:Hw; [done|].
      apply wait_rate_limit_raises in Hw as [-> [-> | [s ->]]]; done.
    + destruct (raise_for_status_cases r (after_request changelog_url w))
        as [-> | ->].
      * unfold lift. by rewrite accept_changelog_ok.
      * destruct (backoff_or_give_up_cases
                    (A := string * string) env attempt
                    (ChangelogFailed (HTTPError (status_code r)))
                    (after_request changelog_url w)) as [[w' ->] | ->]; done.
  - destruct (backoff_or_give_up_cases
                (A := string * string) env attempt
                (ChangelogFailed (ConnectionError msg))
                (after_request changelog_url w)) as [[w' ->] | ->]; done.
Qed.

(** C10: with the attribution header in front, the stripped content is
    at least 100 characters long for every body, the empty one included;
    the length check of [fetch_changelog] therefore never fires. *)
Theorem changelog_never_too_short (text : string) :
  (100 <= String.length (strip (changelog_header +:+ text)))%nat /\
  (100 <= String.length (strip (changelog_header +:+ "")))%nat /\
  accept_changelog text = Returns ("changelog.md", changelog_header +:+ text) /\
  (forall env w n,
     fst (fetch_changelog env w) <> Raises (ValueError (ChangelogTooShort n))).
Proof.
  pose proof (strip_changelog_header text).
  pose proof (strip_changelog_header "").
  repeat split; [lia | lia | apply accept_changelog_ok |].
  intros env w n Hr. apply for_loop_raises in Hr as (k & w' & _ & Hr).
  by apply attempt_changelog_not_too_short in Hr.
Qed.

(** ** Reconciliation *)

Lemma elem_of_sorted_list (s : gset string) x : x ∈ sorted_list s <-> x ∈ s.
Proof. unfold sorted_list. by rewrite merge_sort_Permutation, elem_of_elements. Qed.

Lemma sorted_list_sorted (s : gset string) : StronglySorted String.le (sorted_list s).
Proof. apply (StronglySorted_merge_sort _). Qed.

Lemma sorted_list_NoDup (s : gset string) : NoDup (sorted_list s).
Proof.
  unfold sorted_list. rewrite merge_sort_Permutation. apply NoDup_elements.
Qed.

(** C8: [validate_skill_md] returns the two set differences, both without
    README.md and docs_manifest.json, as sorted lists without repetition;
    with {A.md, B.md} referenced and {A.md, C.md} fetched these are
    [B.md] and [C.md]. *)
Theorem validate_skill_md_differences w (fetched : gset string) :
  exists referenced v,
    get_skill_md_references w = (Returns referenced, w) /\
    validate_skill_md fetched w = (Returns v, w) /\
    (forall x, x ∈ orphaned v <->
               x ∈ referenced ∖ fetched ∖ {[ "README.md"; "docs_manifest.json" ]}) /\
    (forall x, x ∈ unreferenced v <->
               x ∈ fetched ∖ referenced ∖ {[ "README.md"; "docs_manifest.json" ]}) /\
    StronglySorted String.le (orphaned v) /\ NoDup (orphaned v) /\
    StronglySorted String.le (unreferenced v) /\ NoDup (unreferenced v) /\
    (referenced = {[ "A.md"; "B.md" ]} -> fetched = {[ "A.md"; "C.md" ]} ->
     orphaned v = ["B.md"] /\ unreferenced v = ["C.md"]) /\
    validate_skill_md {[ "A.md"; "C.md" ]} sample_skill_world
    = (Returns {| orphaned := ["B.md"]; unreferenced := ["C.md"] |},
       sample_skill_world).
Proof.
  unfold validate_skill_md.
  destruct (get_skill_md_references w) as [referenced w'] eqn:Href.
  assert (w' = w /\ exists s, referenced = Returns s) as [-> [s ->]].
  { unfold get_skill_md_references in Href. injection Href as <- <-. eauto. }
  exists s. eexists. split; [done|].
  rewrite (bind_Returns _ _ _ _ _ Href). cbv zeta. unfold ret.
  split; [reflexivity|]. simpl.
  split; [intros x; apply elem_of_sorted_list|].
  split; [intros x; apply elem_of_sorted_list|].
  split; [apply sorted_list_sorted|].
  split; [apply sorted_list_NoDup|].
  split; [apply sorted_list_sorted|].
  split; [apply sorted_list_NoDup|].
  split; [|by vm_compute].
  intros -> ->. by vm_compute.
Qed.

(** ** Page discovery *)

Lemma parse_url_cases env url w :
  (exists parsed, urlparse env url = Some parsed /\
                  parse_url env url w = (Returns parsed, w)) \/
  (urlparse env url = None /\ parse_url env url w = (Raises ParseError, w)).
Proof. unfold parse_url. destruct (urlparse env url); eauto. Qed.

Lemma collect_pages_cons env url rest acc :
  collect_pages env (url :: rest) acc
  = if existsb (fun pattern => contains pattern url) english_patterns then
      parsed <- parse_url env url ;;
      if negb (existsb (fun skip => contains skip (page_path (url_path parsed)))
                       skip_patterns)
      then collect_pages env rest (acc ++ [page_path (url_path parsed)])
      else collect_pages env rest acc
    else collect_pages env rest acc.
Proof. reflexivity. Qed.

(** Collecting the pages reads no clock, makes no request and writes
    nothing. *)
Lemma collect_pages_pure env urls acc w :
  snd (collect_pages env urls acc w) = w.
Proof.
  revert acc. induction urls as [|url urls IH]; intros acc; [done|].
  rewrite collect_pages_cons.
  destruct (existsb (fun pattern => contains pattern url) english_patterns);
    [|apply IH].
  unfold bind. destruct (parse_url_cases env url w) as [(p & _ & ->)|[_ ->]];
    [|done].
  destruct (negb _); apply IH.
Qed.

Lemma collect_pages_nil env acc w :
  collect_pages env [] acc w = (Returns acc, w).
Proof. reflexivity. Qed.

Lemma discover_claude_code_pages_failed env sitemap_url w :
  sitemap_of env (answer env sitemap_url w) = None ->
  discover_claude_code_pages env sitemap_url w
  = (Returns get_fallback_pages, after_request sitemap_url w).
Proof.
  intros Hnone. unfold discover_claude_code_pages.
  destruct (answer env sitemap_url w) as [msg|r] eqn:Ha; simpl in Hnone.
  - rewrite (try_except_Raises _ _ w
               (RequestException (ConnectionError msg))
               (after_request sitemap_url w)); [done|].
    apply bind_Raises. by apply session_get_raises.
  - destruct (is_error_status (status_code r)) eqn:Hs.
    + rewrite (try_except_Raises _ _ w
                 (RequestException (HTTPError (status_code r)))
                 (after_request sitemap_url w)); [done|].
      rewrite (bind_Returns _ _ _ _ _ (session_get_returns _ _ _ _ Ha)).
      apply bind_Raises. unfold raise_for_status.
      unfold is_error_status in Hs. by rewrite Hs.
    + rewrite (try_except_Raises _ _ w ParseError
                 (after_request sitemap_url w)); [done|].
      rewrite (bind_Returns _ _ _ _ _ (session_get_returns _ _ _ _ Ha)).
      rewrite (bind_Returns _ _ _ tt (after_request sitemap_url w)).
      2:{ unfold raise_for_status. unfold is_error_status in Hs. by rewrite Hs. }
      apply bind_Raises. unfold parse_xml. by rewrite Hnone.
Qed.

(** With a sitemap at hand, the outcome is decided by collecting. *)
Lemma discover_claude_code_pages_parsed env sitemap_url w root :
  sitemap_of env (answer env sitemap_url w) = Some root ->
  discover_claude_code_pages env sitemap_url w
  = (match fst (collect_pages env (sitemap_urls root) []
                  (after_request sitemap_url w)) with
     | Returns pages => Returns (sorted_list (list_to_set pages))
     | Raises (SystemExit code) => Raises (SystemExit code)
     | Raises _ => Returns get_fallback_pages
     end, after_request sitemap_url w).
Proof.
  intros Hsome. unfold discover_claude_code_pages.
  destruct (answer env sitemap_url w) as [msg|r] eqn:Ha; simpl in Hsome;
    [discriminate|].
  destruct (is_error_status (status_code r)) eqn:Hs; [discriminate|].
  pose proof (collect_pages_pure env (sitemap_urls root) []
                (after_request sitemap_url w)) as Hpure.
  destruct (collect_pages env (sitemap_urls root) []
              (after_request sitemap_url w)) as [[pages|e] w1] eqn:Hc;
    simpl in Hpure; subst w1; simpl.
  - apply try_except_Returns.
    rewrite (bind_Returns _ _ _ _ _ (session_get_returns _ _ _ _ Ha)).
    rewrite (bind_Returns _ _ _ tt (after_request sitemap_url w)).
    2:{ unfold raise_for_status. unfold is_error_status in Hs. by rewrite Hs. }
    rewrite (bind_Returns _ _ _ root (after_request sitemap_url w)).
    2:{ unfold parse_xml. by rewrite Hsome. }
    cbv zeta. by rewrite (bind_Returns _ _ _ _ _ Hc).
  - rewrite (try_except_Raises _ _ w e (after_request sitemap_url w)).
    + by destruct e.
    + rewrite (bind_Returns _ _ _ _ _ (session_get_returns _ _ _ _ Ha)).
      rewrite (bind_Returns _ _ _ tt (after_request sitemap_url w)).
      2:{ unfold raise_for_status. unfold is_error_status in Hs. by rewrite Hs. }
      rewrite (bind_Returns _ _ _ root (after_request sitemap_url w)).
      2:{ unfold parse_xml. by rewrite Hsome. }
      cbv zeta. by rewrite (bind_Raises _ _ _ _ _ Hc).
Qed.

Lemma collect_pages_raises env urls acc w e :
  fst (collect_pages env urls acc w) = Raises e -> e = ParseError.
Proof.
  revert acc. induction urls as [|url urls IH]; intros acc; [done|].
  rewrite collect_pages_cons.
  destruct (existsb (fun pattern => contains pattern url) english_patterns);
    [|apply IH].
  unfold bind. destruct (parse_url_cases env url w) as [(p & _ & ->)|[_ ->]].
  - destruct (negb _); apply IH.
  - simpl. congruence.
Qed.

(** C7, as amended: whenever fetching or parsing the sitemap, or one of
    its URLs, fails, the fixed fallback list is returned; a sitemap
    without URLs gives the empty list instead.  The function never
    raises and makes its one request only; the fallback list is a
    non-empty constant. *)
Theorem discover_claude_code_pages_fallback env sitemap_url w :
  let r := discover_claude_code_pages env sitemap_url w in
  (exists pages, fst r = Returns pages) /\
  snd r = after_request sitemap_url w /\
  (sitemap_of env (answer env sitemap_url w) = None ->
   fst r = Returns get_fallback_pages) /\
  (forall root e,
     sitemap_of env (answer env sitemap_url w) = Some root ->
     fst (collect_pages env (sitemap_urls root) []
            (after_request sitemap_url w)) = Raises e ->
     fst r = Returns get_fallback_pages) /\
  (forall root,
     sitemap_of env (answer env sitemap_url w) = Some root ->
     sitemap_urls root = [] ->
     fst r = Returns []) /\
  get_fallback_pages <> [] /\ length get_fallback_pages = 13%nat.
Proof.
  cbv zeta.
  destruct (sitemap_of env (answer env sitemap_url w)) as [root|] eqn:Hs.
  - rewrite (discover_claude_code_pages_parsed _ _ _ _ Hs). simpl.
    split.
    { destruct (fst (collect_pages _ _ _ _)) as [pages|e] eqn:Hc; [eauto|].
      apply collect_pages_raises in Hc as ->. eauto. }
    split; [done|]. split; [done|].
    split.
    { intros root' e [= <-] Hc. rewrite Hc.
      by apply collect_pages_raises in Hc as ->. }
    split; [|done].
    intros root' [= <-] ->. by rewrite collect_pages_nil.
  - rewrite (discover_claude_code_pages_failed _ _ _ Hs). simpl.
    split; [eauto|]. by repeat split.
Qed.

(** The run that refutes the claim as worded: a sitemap that parses but
    lists no URL gives no page at all. *)
Lemma empty_sitemap_gives_no_pages :
  let env := sample_env [page_ok "<urlset/>"] ∅ (Some empty_sitemap) in
  fst (discover_claude_code_pages env "https://code.claude.com/docs/sitemap.xml"
         empty_world) = Returns [] /\
  ~ empty_sitemap_gives_fallback.
Proof.
  split; [by vm_compute|].
  intros Hclaim.
  specialize (Hclaim (sample_env [page_ok "<urlset/>"] ∅ (Some empty_sitemap))
                "https://code.claude.com/docs/sitemap.xml" empty_world
                empty_sitemap eq_refl eq_refl).
  vm_compute in Hclaim. discriminate.
Qed.

(** ** Computations that touch no file *)

Section Quiet.

Context {A B : Type}.

Lemma quiet_ret (a : A) : quiet (ret a).
Proof. intros w. simpl. split_and!; [done..|]. exists []. by rewrite app_nil_r. Qed.

Lemma quiet_raise e : quiet (raise (A:=A) e).
Proof. intros w. simpl. split_and!; [done..|]. exists []. by rewrite app_nil_r. Qed.

Lemma quiet_lift (o : outcome A) : quiet (lift o).
Proof. intros w. simpl. split_and!; [done..|]. exists []. by rewrite app_nil_r. Qed.

Lemma quiet_bind (m : M A) (k : A -> M B) :
  quiet m -> (forall a, quiet (k a)) -> quiet (bind m k).
Proof.
  intros Hm Hk w. unfold bind. specialize (Hm w).
  destruct (m w) as [[a|e] w1]; simpl in *; [|done].
  destruct Hm as (Hd & Hs & es & He & Hes).
  destruct (Hk a w1) as (Hd' & Hs' & es' & He' & Hes').
  split_and!; [congruence.. |].
  exists (es ++ es'). split; [|by apply Forall_app].
  by rewrite He', He, <- app_assoc.
Qed.

Lemma quiet_try_except (m : M A) h :
  quiet m -> (forall e k, h e = Some k -> quiet k) -> quiet (try_except m h).
Proof.
  intros Hm Hh w. unfold try_except. specialize (Hm w).
  destruct (m w) as [[a|e] w1]; simpl in *; [done|].
  destruct (h e) as [k|] eqn:Hk; [|done].
  destruct Hm as (Hd & Hs & es & He & Hes).
  destruct (Hh e k Hk w1) as (Hd' & Hs' & es' & He' & Hes').
  split_and!; [congruence.. |].
  exists (es ++ es'). split; [|by apply Forall_app].
  by rewrite He', He, <- app_assoc.
Qed.

Lemma quiet_except_Exception (k : exn -> M A) e k' :
  (forall e, quiet (k e)) -> except_Exception k e = Some k' -> quiet k'.
Proof. intros Hk. destruct e; intros [= <-]; apply Hk. Qed.

End Quiet.

Lemma quiet_for_loop {X A} (body : X -> M (loop_step A)) xs :
  (forall x, quiet (body x)) -> quiet (for_loop body xs).
Proof.
  intros Hb. induction xs as [|x xs IH]; simpl; [apply quiet_ret|].
  apply quiet_bind; [apply Hb|]. intros [|a]; [apply IH | apply quiet_ret].
Qed.

Lemma quiet_log_network e : is_network_event e -> quiet (log e).
Proof.
  intros He w. simpl. split_and!; [done..|]. exists [e]. split; [done|].
  by apply Forall_singleton.
Qed.

Lemma quiet_sleep secs : quiet (sleep secs).
Proof.
  unfold sleep. destruct (Qle_bool 0 secs); [by apply quiet_log_network|].
  apply quiet_raise.
Qed.

Lemma quiet_session_get env url : quiet (session_get env url).
Proof.
  intros w. unfold session_get.
  assert (is_network_event (EvGet url)) as Hn by done.
  destruct (http_get env (reqs w) url); simpl;
    (split_and!; [done..|]; exists [EvGet url]; split; [done|];
     by apply Forall_singleton).
Qed.

Lemma quiet_raise_for_status r : quiet (raise_for_status r).
Proof.
  unfold raise_for_status.
  destruct (_ && _); [apply quiet_raise | apply quiet_ret].
Qed.

Lemma quiet_random_uniform env a b : quiet (random_uniform env a b).
Proof. intros w. simpl. split_and!; [done..|]. exists []. by rewrite app_nil_r. Qed.

Lemma quiet_now env : quiet (now env).
Proof. intros w. simpl. split_and!; [done..|]. exists []. by rewrite app_nil_r. Qed.

Lemma quiet_wait_rate_limit {A} r : quiet (wait_rate_limit (A:=A) r).
Proof.
  unfold wait_rate_limit.
  apply quiet_bind; [apply quiet_lift|]. intros n.
  apply quiet_bind; [apply quiet_sleep|]. intros _. apply quiet_ret.
Qed.

Lemma quiet_backoff_or_give_up {A} env attempt failure :
  quiet (backoff_or_give_up (A:=A) env attempt failure).
Proof.
  unfold backoff_or_give_up. destruct (_ <? _)%nat; [|apply quiet_raise].
  apply quiet_bind; [apply quiet_random_uniform|]. intros j.
  apply quiet_bind; [apply quiet_sleep|]. intros _. apply quiet_ret.
Qed.

Lemma quiet_attempt_page env url filename attempt :
  quiet (attempt_page env url filename attempt).
Proof.
  unfold attempt_page. apply quiet_try_except.
  - apply quiet_bind; [apply quiet_session_get|]. intros r.
    destruct (_ =? _)%Z; [apply quiet_wait_rate_limit|].
    apply quiet_bind; [apply quiet_raise_for_status|]. intros _.
    apply quiet_bind; [apply quiet_lift|]. intros _. apply quiet_ret.
  - intros e k. destruct e; intros [= <-];
      [apply quiet_backoff_or_give_up | apply quiet_raise].
Qed.

Lemma quiet_fetch_markdown_content env path base_url :
  quiet (fetch_markdown_content env path base_url).
Proof. apply quiet_for_loop. intros k. apply quiet_attempt_page. Qed.

Lemma quiet_attempt_changelog env attempt : quiet (attempt_changelog env attempt).
Proof.
  unfold attempt_changelog. apply quiet_try_except.
  - apply quiet_bind; [apply quiet_session_get|]. intros r.
    destruct (_ =? _)%Z; [apply quiet_wait_rate_limit|].
    apply quiet_bind; [apply quiet_raise_for_status|]. intros _.
    apply quiet_bind; [apply quiet_lift|]. intros ?. apply quiet_ret.
  - intros e k. destruct e; intros [= <-]. apply quiet_backoff_or_give_up.
Qed.

Lemma quiet_fetch_changelog env : quiet (fetch_changelog env).
Proof. apply quiet_for_loop. intros k. apply quiet_attempt_changelog. Qed.

Lemma quiet_parse_xml env content : quiet (parse_xml env content).
Proof. unfold parse_xml. destruct (et_fromstring _ _); [apply quiet_ret | apply quiet_raise]. Qed.

Lemma quiet_parse_url env url : quiet (parse_url env url).
Proof. unfold parse_url. destruct (urlparse _ _); [apply quiet_ret | apply quiet_raise]. Qed.

Lemma quiet_try_sitemap env sitemap_url : quiet (try_sitemap env sitemap_url).
Proof.
  unfold try_sitemap. apply quiet_try_except.
  - apply quiet_bind; [apply quiet_session_get|]. intros r.
    destruct (_ =? _)%Z; [|apply quiet_ret].
    apply quiet_bind; [apply quiet_parse_xml|]. intros root.
    destruct (first_url root); [|apply quiet_ret].
    apply quiet_bind; [apply quiet_parse_url|]. intros p. apply quiet_ret.
  - intros e k. apply quiet_except_Exception. intros _. apply quiet_ret.
Qed.

Lemma quiet_discover_sitemap_and_base_url env :
  quiet (discover_sitemap_and_base_url env).
Proof.
  unfold discover_sitemap_and_base_url.
  apply quiet_bind; [apply quiet_for_loop; intros u; apply quiet_try_sitemap|].
  intros [found|]; [apply quiet_ret | apply quiet_raise].
Qed.

Lemma quiet_collect_pages env urls acc : quiet (collect_pages env urls acc).
Proof.
  revert acc. induction urls as [|url urls IH]; intros acc; [apply quiet_ret|].
  rewrite collect_pages_cons.
  destruct (existsb _ english_patterns); [|apply IH].
  apply quiet_bind; [apply quiet_parse_url|]. intros p.
  destruct (negb _); apply IH.
Qed.

Lemma quiet_discover_claude_code_pages env sitemap_url :
  quiet (discover_claude_code_pages env sitemap_url).
Proof.
  unfold discover_claude_code_pages. apply quiet_try_except.
  - apply quiet_bind; [apply quiet_session_get|]. intros r.
    apply quiet_bind; [apply quiet_raise_for_status|]. intros _.
    apply quiet_bind; [apply quiet_parse_xml|]. intros root.
    apply quiet_bind; [apply quiet_collect_pages|]. intros ps. apply quiet_ret.
  - intros e k. apply quiet_except_Exception. intros _. apply quiet_ret.
Qed.

(** ** Change detection *)

Section ChangeDetection.

Context (env : Env) (old : manifest).

Lemma detect_change_unchanged filename content w :
  files old !! filename ≫= hash = Some (sha256_hexdigest env content) ->
  detect_change env old filename content w
  = (Returns (sha256_hexdigest env content,
              default (isoformat env (clock env (ticks w)))
                      (files old !! filename ≫= last_updated)),
     count_tick w).
Proof.
  intros Hstored. unfold detect_change, content_has_changed. cbv zeta.
  rewrite Hstored. simpl. by rewrite String.eqb_refl.
Qed.

Lemma detect_change_changed filename content w :
  sha256_hexdigest env content <> default "" (files old !! filename ≫= hash) ->
  detect_change env old filename content w
  = (Returns (sha256_hexdigest env content, isoformat env (clock env (ticks w))),
     count_tick (set_disk (<[filename := content]> (disk w))
                          (record_event (EvWrite filename) w))).
Proof.
  intros Hne. unfold detect_change, content_has_changed. cbv zeta.
  apply String.eqb_neq in Hne. by rewrite Hne.
Qed.

(** Either way the change detection returns, and the files it leaves
    differ from those it found at most in [filename], which is not
    removed. *)
Lemma detect_change_returns filename content w :
  exists hu w',
    detect_change env old filename content w = (Returns hu, w') /\
    (forall name, name <> filename -> disk w' !! name = disk w !! name) /\
    (forall name, is_Some (disk w !! name) -> is_Some (disk w' !! name)).
Proof.
  destruct (decide (sha256_hexdigest env content
                    = default "" (files old !! filename ≫= hash))) as [He|Hne].
  - unfold detect_change, content_has_changed. cbv zeta.
    rewrite <- He, String.eqb_refl. simpl. eauto.
  - rewrite (detect_change_changed _ _ _ Hne). do 2 eexists. split; [done|].
    simpl. split.
    + intros name Hname. by rewrite lookup_insert_ne.
    + intros name Hsome. destruct (decide (name = filename)) as [->|Hname].
      * rewrite lookup_insert_eq. eauto.
      * by rewrite lookup_insert_ne.
Qed.

Lemma rate_limit_pause w :
  sleep RATE_LIMIT_DELAY w = (Returns tt, record_event (EvSleep RATE_LIMIT_DELAY) w).
Proof. reflexivity. Qed.

(** [process_page] once the fetch has brought a page back. *)
Lemma process_page_fetched base_url n st i page w filename content w1 hu w2 :
  fetch_markdown_content env page base_url w
  = (Returns (Some (filename, content)), w1) ->
  detect_change env old filename content w1 = (Returns hu, w2) ->
  process_page env old base_url n st i page w
  = (Returns (record_success st filename
                {| original_url := Some (base_url +:+ page);
                   hash := Some (fst hu);
                   last_updated := Some (snd hu);
                   source := None |}),
     if (i <? n)%nat then record_event (EvSleep RATE_LIMIT_DELAY) w2 else w2).
Proof.
  intros Hf Hd. unfold process_page. apply try_except_Returns.
  rewrite (bind_Returns _ _ _ _ _ Hf). rewrite (bind_Returns _ _ _ _ _ Hd).
  cbv zeta. destruct (i <? n)%nat.
  - by rewrite (bind_Returns _ _ _ _ _ (rate_limit_pause w2)).
  - reflexivity.
Qed.

End ChangeDetection.

(** The name a fetched page comes back under is the one derived from
    its path. *)
Lemma attempt_page_Done env url filename attempt w name content w' :
  attempt_page env url filename attempt w = (Returns (Done (name, content)), w') ->
  name = filename.
Proof.
  unfold attempt_page, try_except, bind.
  destruct (session_get_cases env url w) as [[r ->]|[msg ->]].
  - destruct (status_code r =? 429)%Z.
    + destruct (wait_rate_limit r (after_request url w)) as [[[|a]|e] w2] eqn:Hw.
      * discriminate.
      * unfold wait_rate_limit, bind in Hw.
        destruct (lift _ _) as [[?|?] ?]; [|discriminate].
        destruct (sleep _ _) as [[?|?] ?]; discriminate.
      * apply wait_rate_limit_raises in Hw as [-> [-> | [s ->]]]; discriminate.
    + destruct (raise_for_status_cases r (after_request url w)) as [-> | ->].
      * unfold lift.
        destruct (validate_markdown_content (body r) filename) as [[]|e] eqn:Hv.
        -- by intros [= <- _ _].
        -- apply validate_raises_value_error in Hv as [v ->]. discriminate.
      * destruct (backoff_or_give_up_cases
                    (A := string * string) env attempt
                    (FetchFailed filename MAX_RETRIES (HTTPError (status_code r)))
                    (after_request url w)) as [[w2 ->] | ->]; discriminate.
  - destruct (backoff_or_give_up_cases
                (A := string * string) env attempt
                (FetchFailed filename MAX_RETRIES (ConnectionError msg))
                (after_request url w)) as [[w2 ->] | ->]; discriminate.
Qed.

Lemma for_loop_Some {X A} (body : X -> M (loop_step A)) xs w a w' :
  for_loop body xs w = (Returns (Some a), w') ->
  exists x w1, x ∈ xs /\ body x w1 = (Returns (Done a), w').
Proof.
  revert w. induction xs as [|x xs IH]; intros w; simpl; [discriminate|].
  unfold bind. destruct (body x w) as [[[|b]|e] w1] eqn:E.
  - intros H. destruct (IH _ H) as (y & w2 & Hy & Hb).
    exists y, w2. split; [by right | done].
  - intros [= <- <-]. exists x, w. split; [by left | done].
  - discriminate.
Qed.

Lemma fetch_markdown_content_filename env path base_url w name content w' :
  fetch_markdown_content env path base_url w = (Returns (Some (name, content)), w') ->
  name = url_to_safe_filename path.
Proof.
  intros H. apply for_loop_Some in H as (k & w1 & _ & H).
  by apply attempt_page_Done in H.
Qed.

(** ** The file name of a page *)

(** C5: [url_to_safe_filename] is a function of its argument alone: the
    name depends on the argument only through the trimmed path, so that
    two calls on the same path agree, and every fetch of the page names
    its file by it, whatever the server answers and whatever the state
    of the files.  The first of the prefixes ["/docs/en/"],
    ["/en/docs/claude-code/"], ["/docs/claude-code/"], ["/claude-code/"]
    and, after them, the bare ["claude-code/"] that occurs in the
    argument is cut off together with what precedes it, the prefix does
    not occur in what is kept, and an argument that starts with the
    prefix and does not contain it again loses exactly the prefix; an
    argument in which none of them occurs is kept whole.  Every ['/']
    left is replaced by ["__"], a path without separator only gets
    [".md"] appended when missing, and the result always ends in
    [".md"]. *)
Theorem url_to_safe_filename_spec (url_path : string) :
  let path := trimmed_path url_path in
  let name := url_to_safe_filename url_path in
  let cut (prefix : string) : Prop :=
    (exists head, url_path = head +:+ prefix +:+ path) /\
    contains prefix path = false /\
    (forall rest, url_path = prefix +:+ rest ->
                  contains prefix rest = false -> path = rest) in
  (forall other, trimmed_path other = path ->
                 url_to_safe_filename other = name) /\
  (forall env base_url w filename content w',
     fetch_markdown_content env url_path base_url w
     = (Returns (Some (filename, content)), w') ->
     filename = name) /\
  (if contains "/docs/en/" url_path then cut "/docs/en/"
   else if contains "/en/docs/claude-code/" url_path
   then cut "/en/docs/claude-code/"
   else if contains "/docs/claude-code/" url_path
   then cut "/docs/claude-code/"
   else if contains "/claude-code/" url_path then cut "/claude-code/"
   else if contains "claude-code/" url_path then cut "claude-code/"
   else path = url_path) /\
  name = (let safe_name := replace_char "/" "__" path in
          if endswith ".md" safe_name then safe_name else safe_name +:+ ".md") /\
  contains "/" name = false /\
  (contains "/" path = false ->
   name = if endswith ".md" path then path else path +:+ ".md") /\
  endswith ".md" name = true.
Proof.
  cbv zeta.
  assert (Hcut : forall prefix, prefix <> "" ->
            contains prefix url_path = true ->
            trimmed_path url_path = last_item (split prefix url_path) ->
            (exists head, url_path = head +:+ prefix +:+ trimmed_path url_path) /\
            contains prefix (trimmed_path url_path) = false /\
            (forall rest, url_path = prefix +:+ rest ->
               contains prefix rest = false -> trimmed_path url_path = rest)).
  { intros prefix Hne Hc ->.
    destruct (last_split prefix url_path Hne) as (Hno & Hyes & _).
    split; [by apply Hyes|]. split; [done|].
    intros rest -> Hrest. by apply split_leading. }
  split.
  { intros other Hother. rewrite !url_to_safe_filename_eq. cbv zeta.
    by rewrite Hother. }
  split.
  { intros env base_url w filename content w' Hfetch.
    by apply fetch_markdown_content_filename in Hfetch. }
  split.
  { pose proof (trimmed_path_cases url_path) as Hcases.
    repeat (match type of Hcases with context [contains ?p url_path] =>
              destruct (contains p url_path) eqn:?;
              [by apply Hcut|] end).
    exact Hcases. }
  split; [apply url_to_safe_filename_eq|].
  split.
  { rewrite url_to_safe_filename_eq. cbv zeta.
    destruct (endswith ".md" (replace_char _ _ _)).
    + by apply replace_char_clean.
    + rewrite contains_char_append, replace_char_clean by done. done. }
  split.
  { intros Hc. rewrite url_to_safe_filename_eq. cbv zeta.
    by rewrite replace_char_absent. }
  rewrite url_to_safe_filename_eq. cbv zeta.
  destruct (endswith ".md" (replace_char _ _ _)) eqn:E; [done|].
  apply endswith_append.
Qed.

(** The statement at the path of a documentation page: the prefix
    ["/docs/en/"] is cut off and the separator left is replaced. *)
Lemma url_to_safe_filename_spec_witness :
  trimmed_path "/docs/en/agent-sdk/python" = "agent-sdk/python" /\
  url_to_safe_filename "/docs/en/agent-sdk/python" = "agent-sdk__python.md" /\
  contains "/" (url_to_safe_filename "/docs/en/agent-sdk/python") = false /\
  endswith ".md" (url_to_safe_filename "/docs/en/agent-sdk/python") = true.
Proof.
  pose proof (url_to_safe_filename_spec "/docs/en/agent-sdk/python") as H.
  cbv zeta in H.
  destruct H as (_ & _ & Hcut & Hname & Hclean & _ & Hmd).
  assert (Hc : contains "/docs/en/" "/docs/en/agent-sdk/python" = true)
    by reflexivity.
  rewrite Hc in Hcut. destruct Hcut as (_ & _ & Hexact).
  assert (Hpath : trimmed_path "/docs/en/agent-sdk/python" = "agent-sdk/python")
    by (apply Hexact; reflexivity).
  rewrite Hpath in Hname.
  exact (conj Hpath (conj Hname (conj Hclean Hmd))).
Defined.

(** ** Pages that did not change *)

(** C1: a fetched page whose SHA-256 digest is the hash the loaded
    manifest holds for its file name is not written again: the files
    stay as they were and no write is performed, the new entry carries
    the stored hash and the stored timestamp, and it is recorded under
    that name all the same.  With a different digest the file is written
    and the entry is stamped with the time of the clock. *)
Theorem unchanged_page_is_not_rewritten
    env old base_url n st i page w filename content w1 :
  fetch_markdown_content env page base_url w
  = (Returns (Some (filename, content)), w1) ->
  let old_entry := files old !! filename in
  let digest := sha256_hexdigest env content in
  let r := process_page env old base_url n st i page w in
  filename = url_to_safe_filename page /\
  exists e,
    fst r = Returns (record_success st filename e) /\
    new_files (record_success st filename e) !! filename = Some e /\
    (old_entry ≫= hash = Some digest ->
       disk (snd r) = disk w /\
       (exists es, events (snd r) = events w ++ es /\
                   Forall is_network_event es) /\
       hash e = Some digest /\
       (forall t, old_entry ≫= last_updated = Some t -> last_updated e = Some t)) /\
    (digest <> default "" (old_entry ≫= hash) ->
       disk (snd r) = <[filename := content]> (disk w) /\
       EvWrite filename ∈ events (snd r) /\
       hash e = Some digest /\
       last_updated e = Some (isoformat env (clock env (ticks w1)))).
Proof.
  intros Hf old_entry digest r.
  split; [by eapply fetch_markdown_content_filename|].
  destruct (quiet_fetch_markdown_content env page base_url w)
    as (Hdisk & _ & es & Hev & Hes).
  rewrite Hf in Hdisk, Hev. simpl in Hdisk, Hev.
  destruct (detect_change_returns env old filename content w1)
    as (hu & w2 & Hd & _).
  subst r. rewrite (process_page_fetched _ _ _ _ _ _ _ _ _ _ _ _ _ Hf Hd).
  eexists. split; [reflexivity|].
  split; [simpl; apply lookup_insert_eq|].
  split.
  - intros Hsame.
    rewrite (detect_change_unchanged _ _ _ _ _ Hsame) in Hd.
    injection Hd as <- <-. simpl.
    split; [by destruct (i <? n)%nat|].
    split; [|split; [done|]].
    + destruct (i <? n)%nat; simpl; rewrite Hev.
      * exists (es ++ [EvSleep RATE_LIMIT_DELAY]). rewrite app_assoc.
        split; [done|]. apply Forall_app. split; [done|].
        by apply Forall_singleton.
      * by exists es.
    + intros t Ht. fold old_entry. by rewrite Ht.
  - intros Hdiff.
    rewrite (detect_change_changed _ _ _ _ _ Hdiff) in Hd.
    injection Hd as <- <-. simpl.
    split; [by destruct (i <? n)%nat; simpl; rewrite Hdisk|].
    split; [|done].
    destruct (i <? n)%nat; simpl; set_solver.
Qed.

Lemma unchanged_page_is_not_rewritten_witness :
  let env := sample_env [page_ok sample_page] sample_stored None in
  let url := "https://code.claude.com/docs/en/overview.md" in
  fetch_markdown_content env "/docs/en/overview" "https://code.claude.com"
    empty_world
  = (Returns (Some ("overview.md", sample_page)), after_request url empty_world) /\
  "overview.md" = url_to_safe_filename "/docs/en/overview".
Proof.
  intros env url.
  assert (fetch_markdown_content env "/docs/en/overview"
            "https://code.claude.com" empty_world
          = (Returns (Some ("overview.md", sample_page)),
             after_request url empty_world)) as Hf by (by vm_compute).
  split; [exact Hf|].
  apply (unchanged_page_is_not_rewritten env sample_manifest
           "https://code.claude.com" 1 run_start 1 "/docs/en/overview"
           empty_world "overview.md" sample_page _ Hf).
Defined.

(** The sample page, already in the manifest, fetched again. *)
Example unchanged_sample_page_run :
  let env := sample_env [page_ok sample_page] sample_stored None in
  let r := process_page env sample_manifest "https://code.claude.com" 1
             run_start 1 "/docs/en/overview" empty_world in
  disk (snd r) = ∅ /\
  events (snd r) = [EvGet "https://code.claude.com/docs/en/overview.md"] /\
  (exists st, fst r = Returns st /\
     new_files st !! "overview.md"
     = Some {| original_url := Some "https://code.claude.com/docs/en/overview";
               hash := Some (sample_digest sample_page);
               last_updated := Some "2025-01-01T00:00:00";
               source := None |}).
Proof.
  split_and!; [by vm_compute.. |]. eexists. split; by vm_compute.
Qed.

(** ** The run *)

Lemma bind_inv {A B} (m : M A) (k : A -> M B) w b w' :
  bind m k w = (Returns b, w') ->
  exists a w1, m w = (Returns a, w1) /\ k a w1 = (Returns b, w').
Proof.
  unfold bind. destruct (m w) as [[a|e] w1]; [eauto | discriminate].
Qed.

Lemma quiet_disk {A} (m : M A) w r w' :
  quiet m -> m w = (r, w') -> disk w' = disk w.
Proof. intros Hq Hm. destruct (Hq w) as [H _]. by rewrite Hm in H. Qed.

Section Run.

Context (env : Env) (old : manifest) (w0 : World).

Lemma process_page_invariant base_url n st i page w st' w' :
  run_invariant w0 st w ->
  process_page env old base_url n st i page w = (Returns st', w') ->
  run_invariant w0 st' w'.
Proof.
  intros (Hdom & Hdisk & Hstay) Hp.
  destruct (fetch_markdown_content env page base_url w)
    as [[[[filename content]|]|e] w1] eqn:Hf;
    pose proof (quiet_disk _ _ _ _ (quiet_fetch_markdown_content _ _ _) Hf) as Hw1.
  - destruct (detect_change_returns env old filename content w1)
      as (hu & w2 & Hd & Hother & Hkeep).
    rewrite (process_page_fetched _ _ _ _ _ _ _ _ _ _ _ _ _ Hf Hd) in Hp.
    injection Hp as <- <-. unfold run_invariant.
    assert (disk (if (i <? n)%nat
                  then record_event (EvSleep RATE_LIMIT_DELAY) w2 else w2)
            = disk w2) as -> by (by destruct (i <? n)%nat).
    split_and!; simpl.
    + rewrite dom_insert_L. by rewrite Hdom.
    + intros name Hname.
      apply not_elem_of_union in Hname as [Hne%not_elem_of_singleton Hnf].
      rewrite Hother by done. rewrite Hw1. by apply Hdisk.
    + intros name Hsome. apply Hkeep. rewrite Hw1. by apply Hstay.
  - unfold process_page in Hp.
    rewrite (try_except_Raises _ _ w UnpackNone w1) in Hp
      by (by rewrite (bind_Returns _ _ _ _ _ Hf)).
    injection Hp as <- <-. split_and!; [done | |]; simpl; by rewrite Hw1.
  - unfold process_page in Hp.
    rewrite (try_except_Raises _ _ w e w1) in Hp
      by (by rewrite (bind_Raises _ _ _ _ _ Hf)).
    destruct e; try discriminate; injection Hp as <- <-;
      (split_and!; [done | |]; simpl; by rewrite Hw1).
Qed.

Lemma process_pages_invariant base_url n pages st i w st' w' :
  run_invariant w0 st w ->
  process_pages env old base_url n st i pages w = (Returns st', w') ->
  run_invariant w0 st' w'.
Proof.
  revert st i w. induction pages as [|page pages IH]; intros st i w Hinv; simpl.
  - by intros [= <- <-].
  - intros (st1 & w1 & Hp & Hrest)%bind_inv.
    eapply IH; [|exact Hrest]. by eapply process_page_invariant.
Qed.

Lemma process_changelog_invariant st w st' w' :
  run_invariant w0 st w ->
  process_changelog env old st w = (Returns st', w') ->
  run_invariant w0 st' w'.
Proof.
  intros (Hdom & Hdisk & Hstay) Hp.
  destruct (fetch_changelog env w) as [[[[filename content]|]|e] w1] eqn:Hf;
    pose proof (quiet_disk _ _ _ _ (quiet_fetch_changelog _) Hf) as Hw1;
    unfold process_changelog in Hp.
  - destruct (detect_change_returns env old filename content w1)
      as (hu & w2 & Hd & Hother & Hkeep).
    rewrite (try_except_Returns _ _ w
               (record_success st filename
                  {| original_url :=
                       Some "https://github.com/anthropics/claude-code/blob/main/CHANGELOG.md";
                     hash := Some (fst hu); last_updated := Some (snd hu);
                     source := Some "github" |}) w2) in Hp.
    2:{ rewrite (bind_Returns _ _ _ _ _ Hf).
        by rewrite (bind_Returns _ _ _ _ _ Hd). }
    injection Hp as <- <-. split_and!; simpl.
    + rewrite dom_insert_L. by rewrite Hdom.
    + intros name Hname.
      apply not_elem_of_union in Hname as [Hne%not_elem_of_singleton Hnf].
      rewrite Hother by done. rewrite Hw1. by apply Hdisk.
    + intros name Hsome. apply Hkeep. rewrite Hw1. by apply Hstay.
  - rewrite (try_except_Raises _ _ w UnpackNone w1) in Hp
      by (by rewrite (bind_Returns _ _ _ _ _ Hf)).
    injection Hp as <- <-. split_and!; [done | |]; simpl; by rewrite Hw1.
  - rewrite (try_except_Raises _ _ w e w1) in Hp
      by (by rewrite (bind_Raises _ _ _ _ _ Hf)).
    destruct e; try discriminate; injection Hp as <- <-;
      (split_and!; [done | |]; simpl; by rewrite Hw1).
Qed.

End Run.

(** The files [remove_files] leaves: the names listed are gone, save the
    protected ones; every other file is as before. *)
Lemma remove_files_spec names w :
  exists w',
    remove_files names w = (Returns tt, w') /\
    (forall name, name ∈ names -> name ∉ protected_files ->
                  disk w' !! name = None) /\
    (forall name, name ∉ names \/ name ∈ protected_files ->
                  disk w' !! name = disk w !! name).
Proof.
  revert w. induction names as [|filename names IH]; intros w;
    cbn [remove_files].
  - exists w. split; [done|]. split; [|done].
    intros name Hin. by apply elem_of_nil in Hin.
  - unfold bind at 1. destruct (bool_decide (filename ∈ protected_files)) eqn:Hp.
    + apply bool_decide_eq_true in Hp. simpl.
      destruct (IH w) as (w' & -> & Hgone & Hkept). exists w'.
      split; [done|]. split.
      * intros name [->|Hin]%elem_of_cons Hnp; [done | by apply Hgone].
      * intros name [Hnin|Hprot]; apply Hkept; [left | by right].
        intros Hin. apply Hnin. by right.
    + apply bool_decide_eq_false in Hp. unfold unlink_if_exists.
      destruct (disk w !! filename) as [c|] eqn:Hex; simpl.
      * destruct (IH (set_disk (delete filename (disk w))
                        (record_event (EvUnlink filename) w)))
          as (w' & -> & Hgone & Hkept).
        exists w'. split; [done|]. split.
        -- intros name Hin Hnp. destruct (decide (name ∈ names)) as [Hn|Hn];
             [by apply Hgone|].
           apply elem_of_cons in Hin as [->|Hin]; [|done].
           rewrite Hkept by (by left). simpl. apply lookup_delete_eq.
        -- intros name Hname.
           assert (name <> filename) as Hne.
           { intros ->. destruct Hname as [Hnin|Hprot]; [|done].
             apply Hnin. by left. }
           rewrite Hkept.
           ++ simpl. by rewrite lookup_delete_ne.
           ++ destruct Hname as [Hnin|Hprot]; [left | by right].
              intros Hin. apply Hnin. by right.
      * destruct (IH w) as (w' & -> & Hgone & Hkept).
        exists w'. split; [done|]. split.
        -- intros name Hin Hnp. destruct (decide (name ∈ names)) as [Hn|Hn];
             [by apply Hgone|].
           apply elem_of_cons in Hin as [->|Hin]; [|done].
           by rewrite Hkept by (by left).
        -- intros name [Hnin|Hprot]; apply Hkept; [left | by right].
           intros Hin. apply Hnin. by right.
Qed.

Lemma cleanup_old_files_spec current_files m w :
  exists w',
    cleanup_old_files current_files m w = (Returns tt, w') /\
    (forall name, name ∈ dom (files m) -> name ∉ current_files ->
                  name ∉ protected_files -> disk w' !! name = None) /\
    (forall name, name ∉ dom (files m) \/ name ∈ current_files
                  \/ name ∈ protected_files ->
                  disk w' !! name = disk w !! name).
Proof.
  unfold cleanup_old_files. cbv zeta.
  destruct (remove_files_spec (elements (dom (files m) ∖ current_files)) w)
    as (w' & Hr & Hgone & Hkept).
  exists w'. split; [done|]. split.
  - intros name Hold Hcur Hnp. apply Hgone; [|done].
    apply elem_of_elements, elem_of_difference. done.
  - intros name Hname. apply Hkept.
    destruct Hname as [Hn|[Hc|Hp]]; [left | left | by right];
      rewrite elem_of_elements, elem_of_difference; tauto.
Qed.

Lemma run_invariant_start w : run_invariant w run_start w.
Proof. split_and!; [|done..]. simpl. apply dom_empty_L. Qed.

Lemma quiet_find_sitemap env :
  quiet (try_except
           (r <- discover_sitemap_and_base_url env ;; ret (Some (fst r), snd r))
           (except_Exception (fun _ => ret (None, "https://code.claude.com")))).
Proof.
  apply quiet_try_except.
  - apply quiet_bind; [apply quiet_discover_sitemap_and_base_url|].
    intros r. apply quiet_ret.
  - intros e k. apply quiet_except_Exception. intros _. apply quiet_ret.
Qed.

(** What [fetch_docs] has done when the cleanup is over. *)
Lemma fetch_and_cleanup_spec env w old found st w' :
  fetch_and_cleanup env w = (Returns (old, found, st), w') ->
  old = manifest_on env (disk w) /\
  dom (new_files st) = fetched_files st /\
  (forall name, name ∈ dom (files old) -> name ∉ fetched_files st ->
                name ∉ protected_files -> disk w' !! name = None) /\
  (forall name, name ∉ fetched_files st ->
                name ∉ dom (files old) \/ name ∈ protected_files ->
                disk w' !! name = disk w !! name) /\
  (forall name, name ∈ protected_files ->
                is_Some (disk w !! name) -> is_Some (disk w' !! name)).
Proof.
  unfold fetch_and_cleanup. intros H.
  apply bind_inv in H as (old' & w1 & Hload & H).
  injection Hload as <- <-.
  apply bind_inv in H as (found' & w2 & Hfound & H).
  pose proof (quiet_disk _ _ _ _ (quiet_find_sitemap env) Hfound) as Hw2.
  apply bind_inv in H as (pages & w3 & Hpages & H).
  assert (disk w3 = disk w2) as Hw3.
  { destruct (fst found').
    - by apply (quiet_disk _ _ _ _ (quiet_discover_claude_code_pages env _) Hpages).
    - by injection Hpages as <- <-. }
  destruct pages as [|page pages]; [discriminate|].
  apply bind_inv in H as (st1 & w4 & Hpp & H).
  apply (process_pages_invariant env _ w3 _ _ _ _ _ _ _ _
           (run_invariant_start w3)) in Hpp.
  apply bind_inv in H as (st2 & w5 & Hcl & H).
  apply (process_changelog_invariant env _ w3 _ _ _ _ Hpp) in Hcl
    as (Hdom & Hdisk & Hstay).
  apply bind_inv in H as ([] & w6 & Hclean & H).
  injection H as <- <- <- <-.
  destruct (cleanup_old_files_spec (fetched_files st2)
              (manifest_on env (disk w)) w5) as (w6' & Hc & Hgone & Hkept).
  rewrite Hc in Hclean. injection Hclean as <-.
  split; [done|]. split; [done|]. split_and!.
  - intros name Hold Hnf Hnp. by apply Hgone.
  - intros name Hnf Hname. rewrite Hkept by tauto.
    rewrite Hdisk by done. congruence.
  - intros name Hp Hsome. rewrite Hkept by tauto.
    apply Hstay. by rewrite Hw3, Hw2.
Qed.

Lemma elem_of_protected_files name :
  name ∈ protected_files <-> name = "docs_manifest.json" \/ name = "README.md".
Proof. unfold protected_files, MANIFEST_FILE. set_solver. Qed.

(** C2: after a run, the files the loaded manifest listed and the run did
    not fetch are gone from the references directory, except
    docs_manifest.json and README.md, which are never removed; the
    manifest written at the end has exactly the fetched file names as
    keys, so a protected name that was not fetched is on disk but not in
    it. *)
Theorem cleanup_after_fetch env w successful failed fetched w' :
  fetch_docs env w = (Returns (successful, failed, fetched), w') ->
  let old := manifest_on env (disk w) in
  (forall name, name ∈ dom (files old) -> name ∉ fetched ->
                name ∉ protected_files -> disk w' !! name = None) /\
  (forall name, name ∈ protected_files
                <-> name = "docs_manifest.json" \/ name = "README.md") /\
  (forall name, name ∈ protected_files ->
                is_Some (disk w !! name) -> is_Some (disk w' !! name)) /\
  ("README.md" ∉ fetched -> disk w' !! "README.md" = disk w !! "README.md") /\
  exists m,
    disk w' !! "docs_manifest.json" = Some (json_dumps env m) /\
    dom (files m) = fetched /\
    (forall name, name ∈ protected_files -> name ∉ fetched ->
                  files m !! name = None).
Proof.
  intros H old. unfold fetch_docs in H.
  apply bind_inv in H as (start_time & w1 & Hstart & H).
  injection Hstart as <- <-.
  apply bind_inv in H as ([[old' found] st] & w2 & Hrun & H).
  apply fetch_and_cleanup_spec in Hrun as (-> & Hdom & Hgone & Hkept & Hstay).
  simpl in Hgone, Hkept, Hstay. fold old in Hgone, Hkept.
  apply bind_inv in H as (last_fetch & w3 & Hlast & H).
  injection Hlast as <- <-.
  apply bind_inv in H as (end_time & w4 & Hend & H).
  injection Hend as <- <-.
  apply bind_inv in H as ([] & w5 & Hsave & H).
  simpl in H. injection H as <- <- <- <-.
  unfold save_manifest in Hsave.
  apply bind_inv in Hsave as (t & w6 & Hnow & Hsave).
  injection Hnow as <- <-.
  unfold write_text in Hsave. injection Hsave as <-. simpl.
  pose proof elem_of_protected_files as Hprot.
  split.
  { intros name Hold Hnf Hnp. rewrite lookup_insert_ne; [by apply Hgone|].
    intros <-. apply Hnp, Hprot. by left. }
  split; [exact Hprot|]. split.
  { intros name Hp Hsome. apply Hprot in Hp as Hcases.
    destruct Hcases as [-> | ->].
    - rewrite lookup_insert_eq. eauto.
    - rewrite lookup_insert_ne by done. by apply Hstay. }
  split.
  { intros Hnf. rewrite lookup_insert_ne by done.
    apply Hkept; [done|]. right. apply Hprot. by right. }
  eexists. split; [apply lookup_insert_eq|]. simpl. split; [done|].
  intros name _ Hnf. apply not_elem_of_dom. by rewrite Hdom.
Qed.

Lemma cleanup_after_fetch_witness :
  exists w',
    fetch_docs sample_run_env sample_run_world
    = (Returns (2, 0, {[ "overview.md"; "changelog.md" ]})%nat, w') /\
    disk w' !! "retired.md" = None.
Proof.
  eexists. split.
  - vm_compute. reflexivity.
  - eapply (cleanup_after_fetch sample_run_env sample_run_world 2 0
              {[ "overview.md"; "changelog.md" ]}).
    + vm_compute. reflexivity.
    + by vm_compute.
    + by vm_compute.
    + by vm_compute.
Defined.

(** ** Runs end *)

Section NoExit.

Context {A B : Type}.

Lemma no_exit_ret (a : A) : no_exit (ret a).
Proof. by intros w code. Qed.

Lemma no_exit_raise e : (forall code, e <> SystemExit code) -> no_exit (raise (A:=A) e).
Proof. intros He w code [= ->]. by eapply He. Qed.

Lemma no_exit_bind (m : M A) (k : A -> M B) :
  no_exit m -> (forall a, no_exit (k a)) -> no_exit (bind m k).
Proof.
  intros Hm Hk w code. unfold bind. specialize (Hm w code).
  destruct (m w) as [[a|e] w1]; simpl in *; [apply Hk|].
  intros [= ->]. by apply Hm.
Qed.

(** A handler for every [Exception] that itself comes back always does. *)
Lemma try_except_always_returns (m : M A) (k : exn -> M A) w :
  no_exit m -> (forall e w1, exists a w2, k e w1 = (Returns a, w2)) ->
  exists a w', try_except m (except_Exception k) w = (Returns a, w').
Proof.
  intros Hm Hk. unfold try_except. specialize (Hm w).
  destruct (m w) as [[a|e] w1]; simpl in *; [eauto|].
  destruct e; simpl; try apply Hk. by destruct (Hm code).
Qed.

Lemma no_exit_try_except (m : M A) h :
  (forall e k, h e = Some k -> no_exit k) ->
  (forall code, h (SystemExit code) = None -> no_exit m) ->
  no_exit (try_except m h).
Proof.
  intros Hh Hm w code. unfold try_except.
  destruct (m w) as [[a|e] w1] eqn:E; simpl; [done|].
  destruct (h e) as [k|] eqn:Hk; [by eapply Hh|].
  simpl. intros [= ->]. specialize (Hm code Hk w code). by rewrite E in Hm.
Qed.

End NoExit.

Lemma no_exit_for_loop {X A} (body : X -> M (loop_step A)) xs :
  (forall x, no_exit (body x)) -> no_exit (for_loop body xs).
Proof.
  intros Hb. induction xs as [|x xs IH]; simpl; [apply no_exit_ret|].
  apply no_exit_bind; [apply Hb|]. intros [|a]; [apply IH | apply no_exit_ret].
Qed.

Lemma no_exit_sleep secs : no_exit (sleep secs).
Proof. unfold sleep. by destruct (Qle_bool 0 secs). Qed.

Lemma no_exit_session_get env url : no_exit (session_get env url).
Proof. intros w code. unfold session_get. by destruct (http_get _ _ _). Qed.

Lemma no_exit_raise_for_status r : no_exit (raise_for_status r).
Proof. unfold raise_for_status. by destruct (_ && _). Qed.

Lemma no_exit_wait_rate_limit {A} r : no_exit (wait_rate_limit (A:=A) r).
Proof.
  intros w code H.
  destruct (wait_rate_limit r w) as [[a|e] w1] eqn:E; simpl in H; [done|].
  apply wait_rate_limit_raises in E as [_ [-> | [s ->]]]; discriminate.
Qed.

Lemma no_exit_backoff_or_give_up {A} env attempt failure :
  (forall code, failure <> SystemExit code) ->
  no_exit (backoff_or_give_up (A:=A) env attempt failure).
Proof.
  intros Hf w code.
  destruct (backoff_or_give_up_cases (A:=A) env attempt failure w)
    as [[w' ->] | ->]; simpl; [done|]. intros [= ->]. by eapply Hf.
Qed.

Lemma no_exit_attempt_page env url filename attempt :
  no_exit (attempt_page env url filename attempt).
Proof.
  unfold attempt_page. apply no_exit_try_except.
  - intros e k. destruct e; intros [= <-].
    + by apply no_exit_backoff_or_give_up.
    + by apply no_exit_raise.
  - intros code _.
    apply no_exit_bind; [apply no_exit_session_get|]. intros r.
    destruct (_ =? _)%Z; [apply no_exit_wait_rate_limit|].
    apply no_exit_bind; [apply no_exit_raise_for_status|]. intros _.
    apply no_exit_bind; [|intros _; apply no_exit_ret].
    intros w c H. unfold lift in H. simpl in H.
    apply validate_raises_value_error in H as [v [=]].
Qed.

Lemma no_exit_attempt_changelog env attempt : no_exit (attempt_changelog env attempt).
Proof.
  unfold attempt_changelog. apply no_exit_try_except.
  - intros e k. destruct e; intros [= <-].
    by apply no_exit_backoff_or_give_up.
  - intros code _.
    apply no_exit_bind; [apply no_exit_session_get|]. intros r.
    destruct (_ =? _)%Z; [apply no_exit_wait_rate_limit|].
    apply no_exit_bind; [apply no_exit_raise_for_status|]. intros _.
    apply no_exit_bind; [|intros ?; apply no_exit_ret].
    intros w c H. unfold lift in H. simpl in H.
    by rewrite accept_changelog_ok in H.
Qed.

Lemma no_exit_parse_xml env content : no_exit (parse_xml env content).
Proof. unfold parse_xml. by destruct (et_fromstring _ _). Qed.

Lemma no_exit_parse_url env url : no_exit (parse_url env url).
Proof. unfold parse_url. by destruct (urlparse _ _). Qed.

Lemma no_exit_try_sitemap env sitemap_url : no_exit (try_sitemap env sitemap_url).
Proof.
  intros w code. unfold try_sitemap.
  match goal with
  | |- context [try_except ?m (except_Exception ?k) w] =>
      destruct (try_except_always_returns m k w) as (a & w' & ->);
        [| by eauto | done]
  end.
  apply no_exit_bind; [apply no_exit_session_get|]. intros r.
  destruct (_ =? _)%Z; [|apply no_exit_ret].
  apply no_exit_bind; [apply no_exit_parse_xml|]. intros root.
  destruct (first_url root); [|apply no_exit_ret].
  apply no_exit_bind; [apply no_exit_parse_url|]. intros p. apply no_exit_ret.
Qed.

Lemma no_exit_discover_sitemap_and_base_url env :
  no_exit (discover_sitemap_and_base_url env).
Proof.
  unfold discover_sitemap_and_base_url.
  apply no_exit_bind;
    [apply no_exit_for_loop; intros u; apply no_exit_try_sitemap|].
  intros [found|]; [apply no_exit_ret | by apply no_exit_raise].
Qed.

Section RunsEnd.

Context (env : Env) (old : manifest).

Lemma process_page_returns base_url n st i page w :
  exists st' w', process_page env old base_url n st i page w = (Returns st', w').
Proof.
  unfold process_page. apply try_except_always_returns; [|by eauto].
  apply no_exit_bind;
    [apply no_exit_for_loop; intros k; apply no_exit_attempt_page|].
  intros [[filename content]|]; [|by apply no_exit_raise].
  intros w1 code.
  destruct (detect_change_returns env old filename content w1)
    as (hu & w2 & Hd & _).
  rewrite (bind_Returns _ _ _ _ _ Hd).
  destruct (i <? n)%nat; [|done].
  by rewrite (bind_Returns _ _ _ _ _ (rate_limit_pause w2)).
Qed.

Lemma process_pages_returns base_url n pages st i w :
  exists st' w', process_pages env old base_url n st i pages w = (Returns st', w').
Proof.
  revert st i w. induction pages as [|page pages IH]; intros st i w; simpl.
  - by eauto.
  - destruct (process_page_returns base_url n st i page w) as (st1 & w1 & Hp).
    rewrite (bind_Returns _ _ _ _ _ Hp). apply IH.
Qed.

Lemma process_changelog_returns st w :
  exists st' w', process_changelog env old st w = (Returns st', w').
Proof.
  unfold process_changelog. apply try_except_always_returns; [|by eauto].
  apply no_exit_bind;
    [apply no_exit_for_loop; intros k; apply no_exit_attempt_changelog|].
  intros [[filename content]|]; [|by apply no_exit_raise].
  intros w1 code.
  destruct (detect_change_returns env old filename content w1)
    as (hu & w2 & Hd & _).
  by rewrite (bind_Returns _ _ _ _ _ Hd).
Qed.

End RunsEnd.

Lemma fetch_and_cleanup_returns_or_exits env w :
  (exists r w', fetch_and_cleanup env w = (Returns r, w')) \/
  (exists w', fetch_and_cleanup env w = (Raises (SystemExit 1), w')).
Proof.
  unfold fetch_and_cleanup.
  rewrite (bind_Returns _ _ w (manifest_on env (disk w)) w) by reflexivity.
  match goal with
  | |- context [try_except ?m (except_Exception ?k)] =>
      destruct (try_except_always_returns m k w) as (found & w2 & Hfound);
        [| by eauto |]
  end.
  { apply no_exit_bind; [apply no_exit_discover_sitemap_and_base_url|].
    intros r. apply no_exit_ret. }
  rewrite (bind_Returns _ _ _ _ _ Hfound).
  assert (exists pages w3,
            match fst found with
            | Some sitemap_url => discover_claude_code_pages env sitemap_url
            | None => ret get_fallback_pages
            end w2 = (Returns pages, w3)) as (pages & w3 & Hpages).
  { destruct (fst found) as [u|]; [|by eauto].
    pose proof (discover_claude_code_pages_parsed env u w2) as Hparsed.
    pose proof (discover_claude_code_pages_failed env u w2) as Hfailed.
    destruct (sitemap_of env (answer env u w2)) as [root|].
    - rewrite (Hparsed root eq_refl).
      destruct (fst (collect_pages _ _ _ _)) as [ps|e] eqn:Hc; [by eauto|].
      apply collect_pages_raises in Hc as ->. by eauto.
    - rewrite (Hfailed eq_refl). by eauto. }
  rewrite (bind_Returns _ _ _ _ _ Hpages).
  destruct pages as [|page pages]; [right; by eauto|]. left.
  destruct (process_pages_returns env (manifest_on env (disk w))
              (snd found) (length (page :: pages)) (page :: pages)
              run_start 1 w3) as (st1 & w4 & Hpp).
  rewrite (bind_Returns _ _ _ _ _ Hpp).
  destruct (process_changelog_returns env (manifest_on env (disk w)) st1 w4)
    as (st2 & w5 & Hcl).
  rewrite (bind_Returns _ _ _ _ _ Hcl).
  destruct (cleanup_old_files_spec (fetched_files st2)
              (manifest_on env (disk w)) w5) as (w6 & Hc & _).
  rewrite (bind_Returns _ _ _ _ _ Hc). by eauto.
Qed.

(** A run of [fetch_docs] either returns its counts, or exits with
    status 1 because no page was discovered. *)
Lemma fetch_docs_returns_or_exits env w :
  (exists r w', fetch_docs env w = (Returns r, w')) \/
  (exists w', fetch_docs env w = (Raises (SystemExit 1), w')).
Proof.
  unfold fetch_docs.
  rewrite (bind_Returns _ _ w (clock env (ticks w)) (count_tick w))
    by reflexivity.
  destruct (fetch_and_cleanup_returns_or_exits env (count_tick w))
    as [(r & w1 & Hr) | (w1 & Hr)].
  - left. rewrite (bind_Returns _ _ _ _ _ Hr). by eauto.
  - right. rewrite (bind_Raises _ _ _ _ _ Hr). by eauto.
Qed.

(** A sitemap without English pages: nothing is discovered, and the run
    exits with status 1. *)
Example no_pages_exit :
  let env := sample_env [page_ok "<urlset>"; page_ok "<urlset>"] ∅
               (Some french_sitemap) in
  fst (fetch_docs env empty_world) = Raises (SystemExit 1).
Proof. by vm_compute. Qed.

(** * Further properties *)

(** ** Requests made by the retry loop *)

Lemma reqs_after_request url w : reqs (after_request url w) = S (reqs w).
Proof. reflexivity. Qed.

Lemma reqs_after_rate_limit url n w : reqs (after_rate_limit url n w) = S (reqs w).
Proof. reflexivity. Qed.

Lemma reqs_after_backoff env url k w : reqs (after_backoff env url k w) = S (reqs w).
Proof. reflexivity. Qed.

(** A response the fetcher takes: neither a 429 nor an error status. *)
Lemma attempt_page_good env url filename attempt w r :
  answer env url w = GetReturns r ->
  status_code r <> 429%Z ->
  is_error_status (status_code r) = false ->
  attempt_page env url filename attempt w
  = (match validate_markdown_content (body r) filename with
     | Returns _ => Returns (Done (filename, body r))
     | Raises e => Raises e
     end, after_request url w).
Proof.
  intros Ha H429 Hs. unfold attempt_page.
  apply Z.eqb_neq in H429.
  assert (raise_for_status r (after_request url w)
          = (Returns tt, after_request url w)) as Hr.
  { unfold raise_for_status. unfold is_error_status in Hs. by rewrite Hs. }
  destruct (validate_markdown_content (body r) filename) as [[]|e] eqn:Hv.
  - apply try_except_Returns.
    rewrite (bind_Returns _ _ _ _ _ (session_get_returns _ _ _ _ Ha)).
    rewrite H429. rewrite (bind_Returns _ _ _ _ _ Hr).
    unfold lift. by rewrite Hv.
  - destruct (validate_raises_value_error _ _ _ Hv) as [v ->].
    rewrite (try_except_Raises _ _ w (ValueError v) (after_request url w));
      [done|].
    rewrite (bind_Returns _ _ _ _ _ (session_get_returns _ _ _ _ Ha)).
    rewrite H429. rewrite (bind_Returns _ _ _ _ _ Hr).
    unfold lift. by rewrite Hv.
Qed.

Lemma events_after_request url w :
  events (after_request url w) = events w ++ [EvGet url].
Proof. reflexivity. Qed.

Lemma reqs_after_failures env url start k w :
  reqs (after_failures env url start k w) = (reqs w + k)%nat.
Proof.
  revert start w. induction k as [|k IH]; intros start w; simpl; [lia|].
  rewrite IH, reqs_after_backoff. lia.
Qed.

Lemma disk_after_failures env url start k w :
  disk (after_failures env url start k w) = disk w.
Proof.
  revert start w. induction k as [|k IH]; intros start w; simpl; [done|].
  by rewrite IH.
Qed.

Lemma length_events_after_failures env url start k w :
  length (events (after_failures env url start k w))
  = (length (events w) + 2 * k)%nat.
Proof.
  revert start w. induction k as [|k IH]; intros start w; simpl; [lia|].
  rewrite IH, events_after_backoff, length_app. simpl. lia.
Qed.

(** A loop body that backs off at transport failures, as both fetchers
    do, runs through [k] failures in a row and goes on with the attempts
    after them. *)
Lemma for_loop_failures {A} env url (body : nat -> M (loop_step A)) :
  (forall attempt w e,
     transport_error (answer env url w) = Some e ->
     (attempt < MAX_RETRIES - 1)%nat ->
     body attempt w = (Returns Next, after_backoff env url attempt w)) ->
  forall k start n w,
    (forall i, (i < k)%nat ->
               is_Some (transport_error (nth_answer env url w i))) ->
    (start + k <= MAX_RETRIES - 1)%nat -> (k <= n)%nat ->
    for_loop body (seq start n) w
    = for_loop body (seq (start + k) (n - k)) (after_failures env url start k w).
Proof.
  intros Hbody. induction k as [|k IH]; intros start n w Hfail Hstart Hn.
  - simpl. by rewrite Nat.add_0_r, Nat.sub_0_r.
  - destruct n as [|n]; [lia|]. simpl.
    destruct (Hfail 0%nat ltac:(lia)) as [e He].
    unfold nth_answer in He. rewrite Nat.add_0_r in He.
    rewrite (bind_Returns _ _ _ _ _ (Hbody start w e He ltac:(lia))).
    rewrite IH; [| |lia|lia].
    + by replace (S start + k)%nat with (start + S k)%nat by lia.
    + intros i Hi. unfold nth_answer. rewrite reqs_after_backoff.
      replace (S (reqs w) + i)%nat with (reqs w + S i)%nat by lia.
      apply Hfail. lia.
Qed.

Lemma attempt_page_backs_off env url filename attempt w e :
  transport_error (answer env url w) = Some e ->
  (attempt < MAX_RETRIES - 1)%nat ->
  attempt_page env url filename attempt w
  = (Returns Next, after_backoff env url attempt w).
Proof. apply attempt_page_transport_retry. Qed.

Lemma backoff_delay_monotone i j :
  (i <= j)%nat -> (backoff_delay i <= backoff_delay j)%Z.
Proof.
  intros Hij. unfold backoff_delay, RETRY_DELAY, MAX_RETRY_DELAY.
  apply Z.min_le_compat_r. apply Z.mul_le_mono_nonneg_l; [lia|].
  apply Z.pow_le_mono_r; lia.
Qed.

(** What the fetch comes to once a response is accepted after [k]
    failures. *)
Lemma fetch_markdown_content_after_failures env path base_url w k r :
  (k < MAX_RETRIES)%nat ->
  (forall i, (i < k)%nat ->
     is_Some (transport_error (nth_answer env (page_url base_url path) w i))) ->
  accepted (nth_answer env (page_url base_url path) w k) r ->
  fetch_markdown_content env path base_url w
  = (match validate_markdown_content (body r) (url_to_safe_filename path) with
     | Returns _ => Returns (Some (url_to_safe_filename path, body r))
     | Raises e => Raises e
     end,
     after_request (page_url base_url path)
       (after_failures env (page_url base_url path) 0 k w)).
Proof.
  intros Hk Hfail (Ha & H429 & Hs). unfold fetch_markdown_content. cbv zeta.
  fold (page_url base_url path).
  set (url := page_url base_url path) in *.
  set (filename := url_to_safe_filename path).
  rewrite (for_loop_failures env url (attempt_page env url filename)
             (attempt_page_backs_off env url filename) k 0 MAX_RETRIES w Hfail)
    by (unfold MAX_RETRIES in *; lia).
  set (w1 := after_failures env url 0 k w).
  assert (answer env url w1 = GetReturns r) as Ha1.
  { unfold answer, w1. by rewrite reqs_after_failures. }
  destruct (MAX_RETRIES - k)%nat as [|m] eqn:Hm; [lia|]. simpl.
  unfold bind.
  rewrite (attempt_page_good env url filename k w1 r Ha1 H429 Hs).
  by destruct (validate_markdown_content (body r) filename) as [[]|e].
Qed.

(** The three ways an attempt can go, by the answer to its request. *)
Lemma attempt_page_cases env url filename attempt w :
  (exists e, transport_error (answer env url w) = Some e /\
             attempt_page env url filename attempt w
             = backoff_or_give_up env attempt
                 (FetchFailed filename MAX_RETRIES e) (after_request url w)) \/
  (exists r, answer env url w = GetReturns r /\ status_code r = 429%Z /\
             attempt_page env url filename attempt w
             = wait_rate_limit r (after_request url w)) \/
  (exists r, accepted (answer env url w) r /\
             attempt_page env url filename attempt w
             = (match validate_markdown_content (body r) filename with
                | Returns _ => Returns (Done (filename, body r))
                | Raises e => Raises e
                end, after_request url w)).
Proof.
  destruct (answer env url w) as [msg|r] eqn:Ha.
  - left. exists (ConnectionError msg). split; [done|].
    apply attempt_page_request_error. by rewrite Ha.
  - destruct (decide (status_code r = 429%Z)) as [H429|H429].
    + right; left. exists r. split_and!; [done..|].
      unfold attempt_page, try_except.
      rewrite (bind_Returns _ _ _ _ _ (session_get_returns _ _ _ _ Ha)).
      apply Z.eqb_eq in H429 as ->.
      destruct (wait_rate_limit r (after_request url w)) as [[s|e] w2] eqn:Hw;
        [done|].
      by apply wait_rate_limit_raises in Hw as [-> [-> | [s ->]]].
    + destruct (is_error_status (status_code r)) eqn:Hs.
      * left. exists (HTTPError (status_code r)).
        assert (transport_error (GetReturns r) = Some (HTTPError (status_code r)))
          as He.
        { unfold transport_error. apply Z.eqb_neq in H429. by rewrite H429, Hs. }
        split; [done|]. apply attempt_page_request_error. by rewrite Ha.
      * right; right. exists r. split; [done|].
        by apply attempt_page_good.
Qed.

Lemma reqs_wait_rate_limit {A} r w :
  reqs (snd (wait_rate_limit (A:=A) r w)) = reqs w.
Proof.
  unfold wait_rate_limit, bind, lift, retry_after_seconds, sleep, log, raise, ret.
  destruct (retry_after r) as [s|].
  - destruct (py_int s) as [n|]; [|done].
    by destruct (Qle_bool 0 (inject_Z n)).
  - by destruct (Qle_bool 0 (inject_Z 60)).
Qed.

Lemma reqs_backoff_or_give_up {A} env attempt failure w :
  reqs (snd (backoff_or_give_up (A:=A) env attempt failure w)) = reqs w.
Proof.
  destruct (Nat.lt_ge_cases attempt (MAX_RETRIES - 1)).
  - by rewrite backoff_or_give_up_retry.
  - by rewrite backoff_or_give_up_last.
Qed.

(** Every attempt makes exactly one request. *)
Lemma reqs_attempt_page env url filename attempt w :
  reqs (snd (attempt_page env url filename attempt w)) = S (reqs w).
Proof.
  destruct (attempt_page_cases env url filename attempt w)
    as [(e & _ & ->) | [(r & _ & _ & ->) | (r & _ & ->)]].
  - by rewrite reqs_backoff_or_give_up.
  - by rewrite reqs_wait_rate_limit.
  - done.
Qed.

Lemma reqs_for_loop {X A} (body : X -> M (loop_step A)) xs w :
  (forall x w, reqs (snd (body x w)) = S (reqs w)) ->
  (reqs w <= reqs (snd (for_loop body xs w)) <= reqs w + length xs)%nat /\
  (xs <> [] -> (reqs w < reqs (snd (for_loop body xs w)))%nat).
Proof.
  intros Hb. revert w. induction xs as [|x xs IH]; intros w; simpl.
  - split; [lia | done].
  - unfold bind. specialize (Hb x w).
    destruct (body x w) as [[[|a]|e] w1]; simpl in *.
    + destruct (IH w1) as [IH1 _]. split; [lia|]. intros _. lia.
    + split; [lia|]. intros _. lia.
    + split; [lia|]. intros _. lia.
Qed.

(** X1: after fewer than [MAX_RETRIES] transport failures in a row, a
    response that is accepted and passes validation makes the fetch
    succeed: it returns the derived file name with the body, having made
    one request per failure and one more, a backoff sleep after each
    failure, and no change to the files; the backoff delays never
    decrease from one attempt to the next. *)
Theorem fetch_succeeds_after_failures env path base_url w (k : nat) r :
  (k < MAX_RETRIES)%nat ->
  (forall i, (i < k)%nat ->
     is_Some (transport_error (nth_answer env (page_url base_url path) w i))) ->
  accepted (nth_answer env (page_url base_url path) w k) r ->
  validate_markdown_content (body r) (url_to_safe_filename path) = Returns tt ->
  let url := page_url base_url path in
  let w' := after_request url (after_failures env url 0 k w) in
  fetch_markdown_content env path base_url w
  = (Returns (Some (url_to_safe_filename path, body r)), w') /\
  reqs w' = (reqs w + k + 1)%nat /\
  length (events w') = (length (events w) + 2 * k + 1)%nat /\
  disk w' = disk w /\
  (forall i j, (i <= j)%nat -> (backoff_delay i <= backoff_delay j)%Z).
Proof.
  intros Hk Hfail Hacc Hvalid url w'.
  rewrite (fetch_markdown_content_after_failures env path base_url w k r
             Hk Hfail Hacc), Hvalid.
  split; [done|]. subst w'.
  split; [rewrite reqs_after_request, reqs_after_failures; lia|].
  split.
  { rewrite events_after_request, length_app, length_events_after_failures.
    simpl. lia. }
  split; [simpl; apply disk_after_failures | apply backoff_delay_monotone].
Qed.

Lemma fetch_succeeds_after_failures_witness :
  let env := sample_env [status_only 503 None; page_ok sample_page] ∅ None in
  (forall i, (i < 1)%nat ->
     is_Some (transport_error
                (nth_answer env (page_url "https://code.claude.com"
                                   "/docs/en/overview") empty_world i))) /\
  fst (fetch_markdown_content env "/docs/en/overview" "https://code.claude.com"
         empty_world)
  = Returns (Some ("overview.md", sample_page)).
Proof.
  intros env.
  assert (forall i, (i < 1)%nat ->
            is_Some (transport_error
                       (nth_answer env (page_url "https://code.claude.com"
                                          "/docs/en/overview") empty_world i)))
    as Hfail.
  { intros i Hi. assert (i = 0%nat) as -> by lia. by eexists. }
  split; [exact Hfail|].
  pose proof (fetch_succeeds_after_failures env "/docs/en/overview"
                "https://code.claude.com" empty_world 1
                {| status_code := 200; retry_after := None; body := sample_page |})
    as H.
  destruct H as [-> _]; [unfold MAX_RETRIES; lia | exact Hfail | | | ].
  - by split_and!.
  - by vm_compute.
  - reflexivity.
Defined.

(** X2: a response that is accepted but fails validation ends the fetch
    at once: the [ValueError] of the validation is raised as it is, after
    the request of that attempt, and no further attempt is made even when
    the budget allows one. *)
Theorem validation_failure_is_not_retried env path base_url w (k : nat) r e :
  (k < MAX_RETRIES)%nat ->
  (forall i, (i < k)%nat ->
     is_Some (transport_error (nth_answer env (page_url base_url path) w i))) ->
  accepted (nth_answer env (page_url base_url path) w k) r ->
  validate_markdown_content (body r) (url_to_safe_filename path) = Raises e ->
  let url := page_url base_url path in
  let w' := after_request url (after_failures env url 0 k w) in
  fetch_markdown_content env path base_url w = (Raises e, w') /\
  (exists v, e = ValueError v) /\
  reqs w' = (reqs w + k + 1)%nat.
Proof.
  intros Hk Hfail Hacc Hinvalid url w'.
  rewrite (fetch_markdown_content_after_failures env path base_url w k r
             Hk Hfail Hacc), Hinvalid.
  split; [done|]. split; [by eapply validate_raises_value_error|].
  subst w'. rewrite reqs_after_request, reqs_after_failures. lia.
Qed.

Lemma validation_failure_is_not_retried_witness :
  let env := sample_env [page_ok html_page; page_ok sample_page] ∅ None in
  validate_markdown_content html_page "overview.md" = Raises (ValueError ReceivedHtml) /\
  fetch_markdown_content env "/docs/en/overview" "https://code.claude.com"
    empty_world
  = (Raises (ValueError ReceivedHtml),
     after_request "https://code.claude.com/docs/en/overview.md" empty_world).
Proof.
  intros env.
  assert (validate_markdown_content html_page "overview.md"
          = Raises (ValueError ReceivedHtml)) as Hv by (by vm_compute).
  split; [exact Hv|].
  apply (validation_failure_is_not_retried env "/docs/en/overview"
           "https://code.claude.com" empty_world 0
           {| status_code := 200; retry_after := None; body := html_page |}).
  - unfold MAX_RETRIES. lia.
  - intros i Hi. lia.
  - by split_and!.
  - exact Hv.
Defined.

(** X3: when all [MAX_RETRIES] requests end in transport failures, the
    fetch raises the terminal error, which names the file, the number of
    attempts and the error of the last request; it has then made
    [MAX_RETRIES] requests and slept after all but the last. *)
Theorem fetch_gives_up_with_last_error env path base_url w e :
  (forall i, (i < MAX_RETRIES - 1)%nat ->
     is_Some (transport_error (nth_answer env (page_url base_url path) w i))) ->
  transport_error (nth_answer env (page_url base_url path) w (MAX_RETRIES - 1))
  = Some e ->
  let url := page_url base_url path in
  let w' := after_request url (after_failures env url 0 (MAX_RETRIES - 1) w) in
  fetch_markdown_content env path base_url w
  = (Raises (FetchFailed (url_to_safe_filename path) MAX_RETRIES e), w') /\
  reqs w' = (reqs w + MAX_RETRIES)%nat /\
  length (events w') = (length (events w) + 2 * MAX_RETRIES - 1)%nat.
Proof.
  intros Hfail Hlast url w'. unfold fetch_markdown_content. cbv zeta.
  fold (page_url base_url path). fold url.
  set (filename := url_to_safe_filename path).
  rewrite (for_loop_failures env url (attempt_page env url filename)
             (attempt_page_backs_off env url filename) (MAX_RETRIES - 1) 0
             MAX_RETRIES w Hfail) by (unfold MAX_RETRIES; lia).
  set (w1 := after_failures env url 0 (MAX_RETRIES - 1) w).
  assert (transport_error (answer env url w1) = Some e) as He.
  { unfold answer, w1. by rewrite reqs_after_failures. }
  change (seq (0 + (MAX_RETRIES - 1)) (MAX_RETRIES - (MAX_RETRIES - 1)))
    with [MAX_RETRIES - 1]%nat.
  rewrite (for_loop_Raises _ _ _ _ _ _
             (attempt_page_transport_last env url filename (MAX_RETRIES - 1)
                w1 e He (le_n _))).
  split; [done|]. subst w' w1.
  split; [rewrite reqs_after_request, reqs_after_failures;
          unfold MAX_RETRIES; lia|].
  rewrite events_after_request, length_app, length_events_after_failures.
  unfold MAX_RETRIES. simpl. lia.
Qed.

Lemma fetch_gives_up_with_last_error_witness :
  let env := sample_env [status_only 500 None; status_only 502 None;
                         status_only 503 None] ∅ None in
  transport_error (nth_answer env (page_url "https://code.claude.com"
                                     "/docs/en/overview") empty_world
                     (MAX_RETRIES - 1)) = Some (HTTPError 503) /\
  fst (fetch_markdown_content env "/docs/en/overview" "https://code.claude.com"
         empty_world)
  = Raises (FetchFailed "overview.md" 3 (HTTPError 503)).
Proof.
  intros env.
  assert (transport_error (nth_answer env (page_url "https://code.claude.com"
                                             "/docs/en/overview") empty_world
                             (MAX_RETRIES - 1)) = Some (HTTPError 503))
    as Hlast by reflexivity.
  split; [exact Hlast|].
  pose proof (fetch_gives_up_with_last_error env "/docs/en/overview"
                "https://code.claude.com" empty_world (HTTPError 503)) as H.
  destruct H as [-> _]; [| exact Hlast | reflexivity].
  intros i Hi. unfold MAX_RETRIES in Hi.
  assert (i = 0 \/ i = 1)%nat as [-> | ->] by lia; by eexists.
Defined.

(** X4: whatever the server answers, one page fetch makes at least one
    and at most [MAX_RETRIES] requests, and touches no file: the
    references directory and SKILL.md are as before, and requests and
    sleeps are all it does. *)
Theorem fetch_markdown_content_bounded env path base_url w :
  let w' := snd (fetch_markdown_content env path base_url w) in
  (reqs w < reqs w')%nat /\ (reqs w' <= reqs w + MAX_RETRIES)%nat /\
  disk w' = disk w /\ skill_md w' = skill_md w /\
  exists es, events w' = events w ++ es /\ Forall is_network_event es.
Proof.
  cbv zeta.
  destruct (reqs_for_loop
              (attempt_page env (base_url +:+ path +:+ ".md")
                 (url_to_safe_filename path))
              (seq 0 MAX_RETRIES) w
              (reqs_attempt_page env _ _)) as [[_ Hle] Hlt].
  rewrite length_seq in Hle.
  split; [by apply Hlt|]. split; [exact Hle|].
  apply quiet_fetch_markdown_content.
Qed.

(** X5: a 429 whose Retry-After does not read as an integer (an HTTP
    date, say), or reads as a negative one, aborts the fetch with the
    [ValueError] of [int] or of [time.sleep]: nothing is slept and no
    further attempt is made. *)
Theorem bad_retry_after_aborts env url filename (k : nat) (rest : list nat) w r s :
  answer env url w = GetReturns r ->
  status_code r = 429%Z ->
  retry_after r = Some s ->
  (py_int s = None ->
   for_loop (attempt_page env url filename) (k :: rest) w
   = (Raises (ValueError (InvalidLiteral s)), after_request url w)) /\
  (forall n, py_int s = Some n -> (n < 0)%Z ->
   for_loop (attempt_page env url filename) (k :: rest) w
   = (Raises (ValueError NegativeSleep), after_request url w)).
Proof.
  intros Ha H429 Hs.
  destruct (attempt_page_cases env url filename k w)
    as [(e & He & _) | [(r' & Ha' & _ & Hstep) | (r' & (Ha' & Hn429 & _) & _)]].
  - unfold transport_error in He. rewrite Ha in He.
    apply Z.eqb_eq in H429. by rewrite H429 in He.
  - rewrite Ha in Ha'. injection Ha' as <-. split.
    + intros Hbad. apply for_loop_Raises. rewrite Hstep.
      unfold wait_rate_limit, bind, lift, retry_after_seconds.
      by rewrite Hs, Hbad.
    + intros n Hn Hneg. apply for_loop_Raises. rewrite Hstep.
      unfold wait_rate_limit, bind, lift, retry_after_seconds, sleep.
      rewrite Hs, Hn.
      assert (Qle_bool 0 (inject_Z n) = false) as ->; [|done].
      apply not_true_is_false. rewrite Qle_bool_iff.
      change 0%Q with (inject_Z 0). rewrite <- Zle_Qle. lia.
  - rewrite Ha in Ha'. injection Ha' as <-. done.
Qed.

Lemma bad_retry_after_aborts_witness :
  let env := sample_env [status_only 429 (Some "Wed, 21 Oct 2015 07:28:00 GMT");
                         page_ok sample_page] ∅ None in
  let url := "https://code.claude.com/docs/en/overview.md" in
  py_int "Wed, 21 Oct 2015 07:28:00 GMT" = None /\
  for_loop (attempt_page env url "overview.md") [0; 1; 2]%nat empty_world
  = (Raises (ValueError (InvalidLiteral "Wed, 21 Oct 2015 07:28:00 GMT")),
     after_request url empty_world).
Proof.
  intros env url.
  assert (py_int "Wed, 21 Oct 2015 07:28:00 GMT" = None) as Hbad
    by (by vm_compute).
  split; [exact Hbad|].
  by apply (bad_retry_after_aborts env url "overview.md" 0 [1; 2]%nat empty_world
              {| status_code := 429;
                 retry_after := Some "Wed, 21 Oct 2015 07:28:00 GMT";
                 body := "" |} "Wed, 21 Oct 2015 07:28:00 GMT").
Defined.

Lemma wait_rate_limit_Next {A} r w (step : loop_step A) w' :
  wait_rate_limit r w = (Returns step, w') ->
  exists n, retry_after_seconds r = Returns n /\ (0 <= n)%Z.
Proof.
  unfold wait_rate_limit, bind, lift, sleep.
  destruct (retry_after_seconds r) as [n|e]; [|discriminate].
  destruct (Qle_bool 0 (inject_Z n)) eqn:Hn; [|discriminate].
  intros _. exists n. split; [done|].
  apply Qle_bool_iff in Hn. change 0%Q with (inject_Z 0) in Hn.
  by rewrite <- Zle_Qle in Hn.
Qed.

(** An attempt that asks for another one: a rate limit, or a transport
    failure before the last attempt. *)
Lemma attempt_page_Next env url filename attempt w w' :
  attempt_page env url filename attempt w = (Returns Next, w') ->
  reqs w' = S (reqs w) /\
  ((exists n, rate_limited (answer env url w) n)
   \/ (attempt < MAX_RETRIES - 1)%nat).
Proof.
  intros Hstep.
  pose proof (reqs_attempt_page env url filename attempt w) as Hreqs.
  rewrite Hstep in Hreqs. split; [done|].
  destruct (attempt_page_cases env url filename attempt w)
    as [(e & He & Heq) | [(r & Ha & H429 & Heq) | (r & _ & Heq)]];
    rewrite Heq in Hstep.
  - right. destruct (Nat.lt_ge_cases attempt (MAX_RETRIES - 1)); [done|].
    by rewrite backoff_or_give_up_last in Hstep.
  - left. apply wait_rate_limit_Next in Hstep as (n & Hn & Hpos).
    exists n, r. done.
  - by destruct (validate_markdown_content (body r) filename) as [[]|?].
Qed.

Lemma for_loop_None_cons {X A} (body : X -> M (loop_step A)) x xs w w' :
  for_loop body (x :: xs) w = (Returns None, w') ->
  exists w1, body x w = (Returns Next, w1) /\
             for_loop body xs w1 = (Returns None, w').
Proof.
  simpl. unfold bind. destruct (body x w) as [[[|a]|e] w1]; [eauto|done..].
Qed.

(** X6: the fetch returns [None] only when it has made all
    [MAX_RETRIES] requests and the last of them was answered by a 429
    with a readable Retry-After. *)
Theorem fetch_returns_None_only_after_last_429 env path base_url w w' :
  fetch_markdown_content env path base_url w = (Returns None, w') ->
  (exists n, rate_limited (nth_answer env (page_url base_url path) w
                             (MAX_RETRIES - 1)) n) /\
  reqs w' = (reqs w + MAX_RETRIES)%nat.
Proof.
  unfold fetch_markdown_content. cbv zeta. fold (page_url base_url path).
  change (seq 0 MAX_RETRIES) with [0; 1; 2]%nat.
  intros (w1 & H0 & H)%for_loop_None_cons.
  apply for_loop_None_cons in H as (w2 & H1 & H).
  apply for_loop_None_cons in H as (w3 & H2 & H).
  injection H as <-.
  apply attempt_page_Next in H0 as [Hr0 _].
  apply attempt_page_Next in H1 as [Hr1 _].
  apply attempt_page_Next in H2 as [Hr2 [Hrl | Hlt]];
    [|unfold MAX_RETRIES in Hlt; lia].
  split; [|unfold MAX_RETRIES; lia].
  unfold nth_answer. unfold answer in Hrl.
  replace (reqs w + (MAX_RETRIES - 1))%nat with (reqs w2); [done|].
  unfold MAX_RETRIES. lia.
Qed.

Lemma fetch_returns_None_only_after_last_429_witness :
  let env := sample_env [status_only 429 (Some "1"); status_only 429 (Some "1");
                         status_only 429 (Some "1")] ∅ None in
  exists w' n,
    fetch_markdown_content env "/docs/en/overview" "https://code.claude.com"
      empty_world = (Returns None, w') /\
    rate_limited (nth_answer env (page_url "https://code.claude.com"
                                    "/docs/en/overview") empty_world
                    (MAX_RETRIES - 1)) n.
Proof.
  intros env.
  destruct (fetch_markdown_content env "/docs/en/overview"
              "https://code.claude.com" empty_world) as [o w'] eqn:Hf.
  assert (o = Returns None) as ->.
  { apply (f_equal fst) in Hf. vm_compute in Hf. by subst o. }
  destruct (fetch_returns_None_only_after_last_429 env "/docs/en/overview"
              "https://code.claude.com" empty_world w' Hf) as [[n Hn] _].
  by exists w', n.
Defined.

(** ** The changelog fetcher *)

Lemma attempt_changelog_request_error env attempt w e :
  transport_error (answer env changelog_url w) = Some e ->
  attempt_changelog env attempt w
  = backoff_or_give_up env attempt (ChangelogFailed e)
      (after_request changelog_url w).
Proof.
  intros He. unfold attempt_changelog.
  destruct (answer env changelog_url w) as [msg|r] eqn:Ha.
  - injection He as <-.
    rewrite (try_except_Raises _ _ w
               (RequestException (ConnectionError msg))
               (after_request changelog_url w)); [done|].
    apply bind_Raises. by apply session_get_raises.
  - destruct (transport_error_status _ _ He) as [-> H429].
    rewrite (try_except_Raises _ _ w
               (RequestException (HTTPError (status_code r)))
               (after_request changelog_url w)); [done|].
    rewrite (bind_Returns _ _ _ _ _ (session_get_returns _ _ _ _ Ha)).
    rewrite H429. apply bind_Raises. by apply raise_for_status_error.
Qed.

Lemma attempt_changelog_backs_off env attempt w e :
  transport_error (answer env changelog_url w) = Some e ->
  (attempt < MAX_RETRIES - 1)%nat ->
  attempt_changelog env attempt w
  = (Returns Next, after_backoff env changelog_url attempt w).
Proof.
  intros He Hlt. rewrite (attempt_changelog_request_error _ _ _ _ He).
  by rewrite backoff_or_give_up_retry.
Qed.

Lemma attempt_changelog_good env attempt w r :
  accepted (answer env changelog_url w) r ->
  attempt_changelog env attempt w
  = (Returns (Done ("changelog.md", changelog_header +:+ body r)),
     after_request changelog_url w).
Proof.
  intros (Ha & H429 & Hs). unfold attempt_changelog.
  apply try_except_Returns.
  rewrite (bind_Returns _ _ _ _ _ (session_get_returns _ _ _ _ Ha)).
  apply Z.eqb_neq in H429. rewrite H429.
  rewrite (bind_Returns _ _ _ tt (after_request changelog_url w)).
  2:{ unfold raise_for_status. unfold is_error_status in Hs. by rewrite Hs. }
  unfold lift. by rewrite accept_changelog_ok.
Qed.

(** X7: after fewer than [MAX_RETRIES] transport failures in a row, any
    accepted response makes the changelog fetch succeed, whatever its
    body (empty, or not markdown at all): the result is "changelog.md"
    with the attribution header in front of the body. *)
Theorem fetch_changelog_accepts_any_body env w (k : nat) r :
  (k < MAX_RETRIES)%nat ->
  (forall i, (i < k)%nat ->
     is_Some (transport_error (nth_answer env changelog_url w i))) ->
  accepted (nth_answer env changelog_url w k) r ->
  let w' := after_request changelog_url
              (after_failures env changelog_url 0 k w) in
  fetch_changelog env w
  = (Returns (Some ("changelog.md", changelog_header +:+ body r)), w') /\
  startswith changelog_header (changelog_header +:+ body r) = true /\
  reqs w' = (reqs w + k + 1)%nat /\
  disk w' = disk w.
Proof.
  intros Hk Hfail Hacc w'. unfold fetch_changelog.
  rewrite (for_loop_failures env changelog_url (attempt_changelog env)
             (attempt_changelog_backs_off env) k 0 MAX_RETRIES w Hfail)
    by (unfold MAX_RETRIES in *; lia).
  set (w1 := after_failures env changelog_url 0 k w).
  assert (accepted (answer env changelog_url w1) r) as Hacc1.
  { unfold answer, w1. rewrite reqs_after_failures. exact Hacc. }
  destruct (MAX_RETRIES - k)%nat as [|m] eqn:Hm; [lia|].
  change (seq (0 + k) (S m)) with ((0 + k)%nat :: seq (S (0 + k)) m).
  rewrite (for_loop_Done _ _ _ _ _ _ (attempt_changelog_good env _ w1 r Hacc1)).
  split; [done|].
  split; [apply startswith_true; by eexists|].
  subst w' w1.
  split; [rewrite reqs_after_request, reqs_after_failures; lia|].
  simpl. apply disk_after_failures.
Qed.

Lemma fetch_changelog_accepts_any_body_witness :
  let env := sample_env [page_ok html_page] ∅ None in
  accepted (nth_answer env changelog_url empty_world 0)
    {| status_code := 200; retry_after := None; body := html_page |} /\
  fetch_changelog env empty_world
  = (Returns (Some ("changelog.md", changelog_header +:+ html_page)),
     after_request changelog_url empty_world).
Proof.
  intros env.
  assert (accepted (nth_answer env changelog_url empty_world 0)
            {| status_code := 200; retry_after := None; body := html_page |})
    as Hacc by (by split_and!).
  split; [exact Hacc|].
  apply (fetch_changelog_accepts_any_body env empty_world 0 _
           ltac:(unfold MAX_RETRIES; lia) ltac:(intros i Hi; lia) Hacc).
Defined.

(** X8: when all [MAX_RETRIES] requests for the changelog end in
    transport failures, the fetch raises its terminal error with the
    error of the last request, after [MAX_RETRIES] requests. *)
Theorem fetch_changelog_gives_up_with_last_error env w e :
  (forall i, (i < MAX_RETRIES - 1)%nat ->
     is_Some (transport_error (nth_answer env changelog_url w i))) ->
  transport_error (nth_answer env changelog_url w (MAX_RETRIES - 1)) = Some e ->
  let w' := after_request changelog_url
              (after_failures env changelog_url 0 (MAX_RETRIES - 1) w) in
  fetch_changelog env w = (Raises (ChangelogFailed e), w') /\
  reqs w' = (reqs w + MAX_RETRIES)%nat.
Proof.
  intros Hfail Hlast w'. unfold fetch_changelog.
  rewrite (for_loop_failures env changelog_url (attempt_changelog env)
             (attempt_changelog_backs_off env) (MAX_RETRIES - 1) 0
             MAX_RETRIES w Hfail) by (unfold MAX_RETRIES; lia).
  set (w1 := after_failures env changelog_url 0 (MAX_RETRIES - 1) w).
  assert (transport_error (answer env changelog_url w1) = Some e) as He.
  { unfold answer, w1. by rewrite reqs_after_failures. }
  change (seq (0 + (MAX_RETRIES - 1)) (MAX_RETRIES - (MAX_RETRIES - 1)))
    with [MAX_RETRIES - 1]%nat.
  assert (attempt_changelog env (MAX_RETRIES - 1) w1
          = (Raises (ChangelogFailed e), after_request changelog_url w1)) as Hstep.
  { rewrite (attempt_changelog_request_error _ _ _ _ He).
    by rewrite backoff_or_give_up_last. }
  rewrite (for_loop_Raises _ _ _ _ _ _ Hstep).
  split; [done|]. subst w' w1.
  rewrite reqs_after_request, reqs_after_failures. unfold MAX_RETRIES. lia.
Qed.

Lemma fetch_changelog_gives_up_with_last_error_witness :
  let env := sample_env [] ∅ None in
  transport_error (nth_answer env changelog_url empty_world (MAX_RETRIES - 1))
  = Some (ConnectionError "connection refused") /\
  fst (fetch_changelog env empty_world)
  = Raises (ChangelogFailed (ConnectionError "connection refused")).
Proof.
  intros env.
  assert (transport_error (nth_answer env changelog_url empty_world
                             (MAX_RETRIES - 1))
          = Some (ConnectionError "connection refused")) as Hlast
    by reflexivity.
  split; [exact Hlast|].
  pose proof (fetch_changelog_gives_up_with_last_error env empty_world
                (ConnectionError "connection refused")) as H.
  destruct H as [-> _]; [| exact Hlast | reflexivity].
  intros i Hi. unfold MAX_RETRIES in Hi.
  assert (i = 0 \/ i = 1)%nat as [-> | ->] by lia; by eexists.
Defined.

(** ** Sitemap discovery *)

Lemma try_sitemap_eq env sitemap_url w :
  try_sitemap env sitemap_url w
  = (match sitemap_base env (answer env sitemap_url w) with
     | Some base_url => Returns (Done (sitemap_url, base_url))
     | None => Returns Next
     end, after_request sitemap_url w).
Proof.
  unfold try_sitemap, sitemap_base.
  destruct (answer env sitemap_url w) as [msg|r] eqn:Ha.
  - rewrite (try_except_Raises _ _ w
               (RequestException (ConnectionError msg))
               (after_request sitemap_url w)); [done|].
    apply bind_Raises. by apply session_get_raises.
  - destruct (status_code r =? 200)%Z eqn:Hs.
    + destruct (et_fromstring env (body r)) as [root|] eqn:Hroot; simpl.
      * destruct (first_url root) as [first|] eqn:Hfirst; simpl.
        -- destruct (urlparse env first) as [parsed|] eqn:Hp; simpl.
           ++ apply try_except_Returns.
              rewrite (bind_Returns _ _ _ _ _ (session_get_returns _ _ _ _ Ha)).
              rewrite Hs. unfold bind, parse_xml. rewrite Hroot. simpl.
              rewrite Hfirst. unfold parse_url. by rewrite Hp.
           ++ rewrite (try_except_Raises _ _ w ParseError
                         (after_request sitemap_url w)); [done|].
              rewrite (bind_Returns _ _ _ _ _ (session_get_returns _ _ _ _ Ha)).
              rewrite Hs. unfold bind, parse_xml. rewrite Hroot. simpl.
              rewrite Hfirst. unfold parse_url. by rewrite Hp.
        -- apply try_except_Returns.
           rewrite (bind_Returns _ _ _ _ _ (session_get_returns _ _ _ _ Ha)).
           rewrite Hs. unfold bind, parse_xml. rewrite Hroot. simpl.
           by rewrite Hfirst.
      * rewrite (try_except_Raises _ _ w ParseError
                   (after_request sitemap_url w)); [done|].
        rewrite (bind_Returns _ _ _ _ _ (session_get_returns _ _ _ _ Ha)).
        rewrite Hs. unfold bind, parse_xml. by rewrite Hroot.
    + apply try_except_Returns.
      rewrite (bind_Returns _ _ _ _ _ (session_get_returns _ _ _ _ Ha)).
      by rewrite Hs.
Qed.

(** X9: the sitemap candidates are tried in their order of preference,
    one request each and no retry; the first whose answer gives a base URL
    wins, any failure (no answer, a status other than 200, a body that
    does not parse, no location, a location that is no URL) only moves on
    to the next, and the error is raised exactly when both fail. *)
Theorem discover_sitemap_first_working env w :
  let w1 := after_request preferred_sitemap w in
  let w2 := after_request second_sitemap w1 in
  discover_sitemap_and_base_url env w
  = match sitemap_base env (nth_answer env preferred_sitemap w 0) with
    | Some base_url => (Returns (preferred_sitemap, base_url), w1)
    | None =>
        match sitemap_base env (nth_answer env second_sitemap w 1) with
        | Some base_url => (Returns (second_sitemap, base_url), w2)
        | None => (Raises NoValidSitemap, w2)
        end
    end.
Proof.
  cbv zeta. unfold discover_sitemap_and_base_url, nth_answer.
  rewrite Nat.add_0_r, Nat.add_1_r.
  change SITEMAP_URLS with [preferred_sitemap; second_sitemap].
  pose proof (try_sitemap_eq env preferred_sitemap w) as H0.
  unfold answer in H0.
  pose proof (try_sitemap_eq env second_sitemap
                (after_request preferred_sitemap w)) as H1.
  unfold answer in H1. rewrite reqs_after_request in H1.
  destruct (sitemap_base env (http_get env (reqs w) preferred_sitemap))
    as [b0|].
  - by rewrite (bind_Returns _ _ _ _ _ (for_loop_Done _ _ _ _ _ _ H0)).
  - destruct (sitemap_base env (http_get env (S (reqs w)) second_sitemap))
      as [b1|].
    + rewrite (bind_Returns _ _ w (Some (second_sitemap, b1))
                 (after_request second_sitemap
                    (after_request preferred_sitemap w))); [done|].
      rewrite (for_loop_Next _ _ _ _ _ H0).
      by apply for_loop_Done.
    + rewrite (bind_Returns _ _ w None
                 (after_request second_sitemap
                    (after_request preferred_sitemap w))); [done|].
      rewrite (for_loop_Next _ _ _ _ _ H0).
      by rewrite (for_loop_Next _ _ _ _ _ H1).
Qed.

(** ** Counting the pages of a run *)

Lemma size_add_file (name : string) (names : gset string) :
  (size ({[ name ]} ∪ names) <= S (size names))%nat.
Proof.
  destruct (decide (name ∈ names)) as [Hin|Hnin].
  - assert ({[ name ]} ∪ names = names) as ->; [|lia].
    apply subseteq_union_1_L. by apply singleton_subseteq_l.
  - rewrite size_union by (by apply disjoint_singleton_l).
    rewrite size_singleton. lia.
Qed.

Lemma add_file_nonempty (name : string) (names : gset string) :
  {[ name ]} ∪ names <> ∅.
Proof. set_solver. Qed.

Lemma add_file_subseteq (name : string) (names more : gset string) :
  {[ name ]} ∪ names ⊆ more -> names ⊆ more.
Proof. set_solver. Qed.

Section Counting.

Context (env : Env) (old : manifest).

(** One page is one success or one failure. *)
Lemma process_page_counts base_url n st i page w st' w' :
  process_page env old base_url n st i page w = (Returns st', w') ->
  (exists filename e, st' = record_success st filename e) \/
  st' = record_failed_page st page.
Proof.
  intros Hp.
  destruct (fetch_markdown_content env page base_url w)
    as [[[[filename content]|]|e] w1] eqn:Hf.
  - destruct (detect_change_returns env old filename content w1)
      as (hu & w2 & Hd & _).
    rewrite (process_page_fetched _ _ _ _ _ _ _ _ _ _ _ _ _ Hf Hd) in Hp.
    injection Hp as <- <-. left. eauto.
  - unfold process_page in Hp.
    rewrite (try_except_Raises _ _ w UnpackNone w1) in Hp
      by (by rewrite (bind_Returns _ _ _ _ _ Hf)).
    injection Hp as <- <-. by right.
  - unfold process_page in Hp.
    rewrite (try_except_Raises _ _ w e w1) in Hp
      by (by rewrite (bind_Raises _ _ _ _ _ Hf)).
    destruct e; try discriminate; injection Hp as <- <-; by right.
Qed.

Lemma process_pages_counts base_url n pages st i w st' w' :
  process_pages env old base_url n st i pages w = (Returns st', w') ->
  exists failed_here,
    (successful st' + failed st' = successful st + failed st + length pages)%nat /\
    (successful st <= successful st')%nat /\
    failed st' = (failed st + length failed_here)%nat /\
    failed_pages st' = failed_pages st ++ failed_here /\
    sublist failed_here pages /\
    fetched_files st ⊆ fetched_files st' /\
    (size (fetched_files st') + successful st
     <= size (fetched_files st) + successful st')%nat /\
    (successful st' = successful st -> fetched_files st' = fetched_files st) /\
    (successful st < successful st' -> fetched_files st' <> ∅).
Proof.
  revert st i w. induction pages as [|page pages IH]; intros st i w; simpl.
  - intros [= <- <-]. exists []. rewrite app_nil_r. simpl.
    split_and!; try done; lia.
  - intros (st1 & w1 & Hp & Hrest)%bind_inv.
    destruct (IH _ _ _ Hrest)
      as (fh & Hsum & Hmono & Hfail & Hfp & Hsub & Hincl & Hsize & Hsame & Hgrow).
    apply process_page_counts in Hp as [(filename & e & ->) | ->];
      simpl in *.
    + exists fh. split_and!; try done; try lia.
      * by apply sublist_cons.
      * by eapply add_file_subseteq.
      * pose proof (size_add_file filename (fetched_files st)). lia.
      * intros _. destruct (decide (successful st' = S (successful st)))
          as [Heq|Hne].
        -- rewrite (Hsame Heq). apply add_file_nonempty.
        -- apply Hgrow. lia.
    + exists (page :: fh). simpl. split_and!; try done; try lia.
      * by rewrite Hfp, <- app_assoc.
      * by apply sublist_skip.
Qed.

End Counting.

Lemma process_changelog_counts env old st w st' w' :
  process_changelog env old st w = (Returns st', w') ->
  (exists filename e, st' = record_success st filename e) \/
  st' = record_failed_changelog st.
Proof.
  intros Hp. unfold process_changelog in Hp.
  destruct (fetch_changelog env w) as [[[[filename content]|]|e] w1] eqn:Hf.
  - destruct (detect_change_returns env old filename content w1)
      as (hu & w2 & Hd & _).
    rewrite (try_except_Returns _ _ w
               (record_success st filename
                  {| original_url :=
                       Some "https://github.com/anthropics/claude-code/blob/main/CHANGELOG.md";
                     hash := Some (fst hu); last_updated := Some (snd hu);
                     source := Some "github" |}) w2) in Hp.
    2:{ rewrite (bind_Returns _ _ _ _ _ Hf).
        by rewrite (bind_Returns _ _ _ _ _ Hd). }
    injection Hp as <- <-. left. eauto.
  - rewrite (try_except_Raises _ _ w UnpackNone w1) in Hp
      by (by rewrite (bind_Returns _ _ _ _ _ Hf)).
    injection Hp as <- <-. by right.
  - rewrite (try_except_Raises _ _ w e w1) in Hp
      by (by rewrite (bind_Raises _ _ _ _ _ Hf)).
    destruct e; try discriminate; injection Hp as <- <-; by right.
Qed.

(** The pages a run goes through, and how its counters add up. *)
Lemma fetch_and_cleanup_counts env w old found st w' :
  fetch_and_cleanup env w = (Returns (old, found, st), w') ->
  exists pages,
    pages <> [] /\
    (fst found = None ->
     pages = get_fallback_pages /\ snd found = "https://code.claude.com") /\
    (successful st + failed st = length pages + 1)%nat /\
    (length (failed_pages st) <= failed st <= length (failed_pages st) + 1)%nat /\
    sublist (failed_pages st) pages /\
    (size (fetched_files st) <= successful st)%nat /\
    (successful st = 0%nat <-> fetched_files st = ∅).
Proof.
  unfold fetch_and_cleanup. intros H.
  apply bind_inv in H as (old' & w1 & Hload & H).
  apply bind_inv in H as (found' & w2 & Hfound & H).
  apply bind_inv in H as (pages & w3 & Hpages & H).
  exists pages.
  assert (fst found' = None ->
          pages = get_fallback_pages /\ snd found' = "https://code.claude.com")
    as Hfallback.
  { intros Hnone. rewrite Hnone in Hpages. injection Hpages as Heq _.
    split; [done|].
    unfold try_except in Hfound.
    destruct (bind (discover_sitemap_and_base_url env) _ w1)
      as [[[u b]|e] wx] eqn:Hd.
    - injection Hfound as <- _.
      unfold bind in Hd.
      destruct (discover_sitemap_and_base_url env w1) as [[r|?] ?];
        [|discriminate].
      injection Hd as <- _ _. simpl in Hnone. discriminate.
    - destruct e; simpl in Hfound; try discriminate;
        by injection Hfound as <- _. }
  destruct pages as [|page pages]; [discriminate|].
  apply bind_inv in H as (st1 & w4 & Hpp & H).
  apply bind_inv in H as (st2 & w5 & Hcl & H).
  apply bind_inv in H as ([] & w6 & Hclean & H).
  injection H as <- <- <- <-.
  apply process_pages_counts in Hpp
    as (fh & Hsum & Hmono & Hfail & Hfp & Hsub & _ & Hsize & Hsame & Hgrow).
  assert (size (fetched_files run_start) = 0%nat) as Hstart
    by apply size_empty.
  rewrite Hstart in Hsize. clear Hstart.
  simpl in Hsum, Hmono, Hfail, Hfp, Hsize, Hsame, Hgrow. subst fh.
  split; [done|]. split; [exact Hfallback|].
  apply process_changelog_counts in Hcl as [(filename & e & ->) | ->]; simpl.
  - split; [lia|]. split; [lia|]. split; [done|].
    split; [pose proof (size_add_file filename (fetched_files st1)); lia|].
    split; [lia | intros Hempty; by apply add_file_nonempty in Hempty].
  - split; [lia|]. split; [lia|]. split; [done|]. split; [lia|]. split.
    + intros Hzero. apply Hsame. lia.
    + intros Hempty. destruct (decide (successful st1 = 0)%nat); [done|].
      exfalso. apply Hgrow; [lia | done].
Qed.

(** [fetch_docs] from the cleanup on. *)
Lemma fetch_docs_after_cleanup env w old found st w1 :
  fetch_and_cleanup env (count_tick w) = (Returns (old, found, st), w1) ->
  fetch_docs env w
  = (Returns (successful st, failed st, fetched_files st),
     after_save env (written_manifest env st found w w1) w1).
Proof.
  intros Hrun. unfold fetch_docs.
  rewrite (bind_Returns _ _ w (clock env (ticks w)) (count_tick w))
    by reflexivity.
  rewrite (bind_Returns _ _ _ _ _ Hrun). reflexivity.
Qed.

Lemma fetch_docs_inv env w (n_ok n_failed : nat) fetched w' :
  fetch_docs env w = (Returns (n_ok, n_failed, fetched), w') ->
  exists old found st w1,
    fetch_and_cleanup env (count_tick w) = (Returns (old, found, st), w1) /\
    n_ok = successful st /\ n_failed = failed st /\
    fetched = fetched_files st /\
    w' = after_save env (written_manifest env st found w w1) w1.
Proof.
  intros H.
  destruct (fetch_and_cleanup_returns_or_exits env (count_tick w))
    as [([[old found] st] & w1 & Hr) | (w1 & Hr)].
  - rewrite (fetch_docs_after_cleanup _ _ _ _ _ _ Hr) in H.
    injection H as <- <- <- <-. by eauto 10.
  - unfold fetch_docs in H.
    rewrite (bind_Returns _ _ w (clock env (ticks w)) (count_tick w)) in H
      by reflexivity.
    by rewrite (bind_Raises _ _ _ _ _ Hr) in H.
Qed.

(** X10: a run that returns has gone through at least one page and the
    changelog, each counted once as a success or a failure; the fetched
    file names are at most as many as the successes, and there are none
    exactly when nothing succeeded.  The manifest it writes carries the
    same counts, a stamp, and the failed pages, which account for every
    failure but possibly that of the changelog. *)
Theorem fetch_docs_counts env w (n_ok n_failed : nat) fetched w' :
  fetch_docs env w = (Returns (n_ok, n_failed, fetched), w') ->
  (2 <= n_ok + n_failed)%nat /\
  (size fetched <= n_ok)%nat /\
  (n_ok = 0%nat <-> fetched = ∅) /\
  exists m meta,
    disk w' !! "docs_manifest.json" = Some (json_dumps env m) /\
    is_Some (manifest_last_updated m) /\
    metadata m = Some meta /\
    meta_successful meta = n_ok /\ meta_failed meta = n_failed /\
    (length (meta_failed_pages meta) <= n_failed
     <= length (meta_failed_pages meta) + 1)%nat.
Proof.
  intros (old & found & st & w1 & Hrun & -> & -> & -> & ->)%fetch_docs_inv.
  apply fetch_and_cleanup_counts in Hrun
    as (pages & Hne & _ & Hsum & Hfailed & _ & Hsize & Hzero).
  split; [destruct pages; [done | simpl in Hsum; lia]|].
  split; [done|]. split; [done|].
  eexists. eexists. split; [apply lookup_insert_eq|].
  simpl. split; [by eexists|]. split; [reflexivity|]. simpl.
  repeat split; try done; lia.
Qed.

Lemma fetch_docs_counts_witness :
  exists w',
    fetch_docs sample_run_env sample_run_world
    = (Returns (2, 0, {[ "overview.md"; "changelog.md" ]})%nat, w') /\
    (size ({[ "overview.md"; "changelog.md" ]} : gset string) <= 2)%nat.
Proof.
  eexists. split.
  - vm_compute. reflexivity.
  - eapply (fetch_docs_counts sample_run_env sample_run_world 2 0
              {[ "overview.md"; "changelog.md" ]}).
    vm_compute. reflexivity.
Defined.

(** Without a sitemap the run goes through the fallback pages at the
    fixed base URL. *)
Lemma fetch_and_cleanup_without_sitemap env w w2 :
  discover_sitemap_and_base_url env w = (Raises NoValidSitemap, w2) ->
  exists st w',
    fetch_and_cleanup env w
    = (Returns (manifest_on env (disk w), (None, "https://code.claude.com"), st),
       w').
Proof.
  intros Hd. unfold fetch_and_cleanup.
  rewrite (bind_Returns _ _ w (manifest_on env (disk w)) w) by reflexivity.
  rewrite (bind_Returns _ _ w (None, "https://code.claude.com") w2).
  2:{ rewrite (try_except_Raises _ _ w NoValidSitemap w2); [done|].
      by rewrite (bind_Raises _ _ _ _ _ Hd). }
  cbn [fst snd].
  rewrite (bind_Returns _ _ w2 get_fallback_pages w2) by reflexivity.
  change get_fallback_pages
    with ("/docs/en/overview" :: tail get_fallback_pages) at 1.
  cbv iota.
  destruct (process_pages_returns env (manifest_on env (disk w))
              "https://code.claude.com" (length get_fallback_pages)
              get_fallback_pages run_start 1 w2) as (st1 & w3 & Hpp).
  rewrite (bind_Returns _ _ _ _ _ Hpp).
  destruct (process_changelog_returns env (manifest_on env (disk w)) st1 w3)
    as (st2 & w4 & Hcl).
  rewrite (bind_Returns _ _ _ _ _ Hcl).
  destruct (cleanup_old_files_spec (fetched_files st2)
              (manifest_on env (disk w)) w4) as (w5 & Hc & _).
  rewrite (bind_Returns _ _ _ _ _ Hc). by eauto.
Qed.

(** When neither candidate gives a base URL the discovery raises, after
    one request to each. *)
Lemma discover_sitemap_none env w :
  sitemap_base env (nth_answer env preferred_sitemap w 0) = None ->
  sitemap_base env (nth_answer env second_sitemap w 1) = None ->
  discover_sitemap_and_base_url env w
  = (Raises NoValidSitemap,
     after_request second_sitemap (after_request preferred_sitemap w)).
Proof.
  unfold nth_answer. rewrite Nat.add_0_r, Nat.add_1_r. intros E0 E1.
  unfold discover_sitemap_and_base_url.
  change SITEMAP_URLS with [preferred_sitemap; second_sitemap].
  pose proof (try_sitemap_eq env preferred_sitemap w) as H0.
  unfold answer in H0. rewrite E0 in H0.
  pose proof (try_sitemap_eq env second_sitemap
                (after_request preferred_sitemap w)) as H1.
  unfold answer in H1. rewrite reqs_after_request, E1 in H1.
  rewrite (bind_Returns _ _ w None
             (after_request second_sitemap
                (after_request preferred_sitemap w))); [done|].
  rewrite (for_loop_Next _ _ _ _ _ H0).
  by rewrite (for_loop_Next _ _ _ _ _ H1).
Qed.

(** X11: when neither sitemap candidate gives a base URL, the run does
    not stop: it goes through the thirteen fallback pages and the
    changelog at the fixed base URL, and the manifest it writes records
    that no sitemap was used. *)
Theorem run_without_sitemap_uses_fallback env w :
  sitemap_base env (nth_answer env preferred_sitemap w 0) = None ->
  sitemap_base env (nth_answer env second_sitemap w 1) = None ->
  exists (n_ok n_failed : nat) fetched w',
    fetch_docs env w = (Returns (n_ok, n_failed, fetched), w') /\
    (n_ok + n_failed = length get_fallback_pages + 1)%nat /\
    exists m meta,
      disk w' !! "docs_manifest.json" = Some (json_dumps env m) /\
      metadata m = Some meta /\
      meta_sitemap_url meta = None /\
      meta_base_url meta = "https://code.claude.com" /\
      sublist (meta_failed_pages meta) get_fallback_pages.
Proof.
  intros H0 H1.
  pose proof (discover_sitemap_none env (count_tick w) H0 H1) as Hd.
  destruct (fetch_and_cleanup_without_sitemap _ _ _ Hd) as (st & w1 & Hrun).
  exists (successful st), (failed st), (fetched_files st).
  eexists. split; [by apply (fetch_docs_after_cleanup _ _ _ _ _ _ Hrun)|].
  apply fetch_and_cleanup_counts in Hrun
    as (pages & _ & Hfallback & Hsum & _ & Hsub & _).
  destruct (Hfallback eq_refl) as [-> _].
  split; [done|].
  eexists. eexists. split; [apply lookup_insert_eq|].
  simpl. split; [reflexivity|]. simpl. done.
Qed.

Lemma run_without_sitemap_uses_fallback_witness :
  let env := sample_env [] ∅ None in
  sitemap_base env (nth_answer env preferred_sitemap empty_world 0) = None /\
  sitemap_base env (nth_answer env second_sitemap empty_world 1) = None /\
  exists (n_ok n_failed : nat) fetched w',
    fetch_docs env empty_world = (Returns (n_ok, n_failed, fetched), w') /\
    (n_ok + n_failed = length get_fallback_pages + 1)%nat.
Proof.
  intros env.
  assert (sitemap_base env (nth_answer env preferred_sitemap empty_world 0)
          = None) as H0 by reflexivity.
  assert (sitemap_base env (nth_answer env second_sitemap empty_world 1)
          = None) as H1 by reflexivity.
  split; [exact H0|]. split; [exact H1|].
  destruct (run_without_sitemap_uses_fallback env empty_world H0 H1)
    as (n_ok & n_failed & fetched & w' & Hrun & Hsum & _).
  exact (ex_intro _ n_ok (ex_intro _ n_failed (ex_intro _ fetched
           (ex_intro _ w' (conj Hrun Hsum))))).
Defined.
